(** * U-Net training loop: [train_step], [eval_step] and [train]

    A shallow embedding of [src/unet/train.py].  The two epoch runners and
    the orchestrator are written as computations in a state-and-exception
    monad over a [World] holding the mutable objects of the run (model,
    optimizer, gradient scaler, scheduler, file system) together with the
    trace of the calls made to the collaborators.

    Scalars.  The per-batch values are Python floats stored in float64
    arrays.  They are IEEE 754 binary64 numbers here too ([PrimFloat]):
    additions and divisions round as they do in the program, NaN and the
    infinities included, and the numbers shown on the progress bar and in
    the reports are the strings that the [.4f] and [.6f] formats produce. *)

From Stdlib Require Import ZArith.
From Stdlib Require Import Floats.PrimFloat Floats.SpecFloat Floats.FloatOps.
From Stdlib Require Import Ascii String DecimalString.
From stdpp Require Import gmap strings list fin_maps.

Set Warnings "-inexact-float".

Local Open Scope string_scope.
Local Open Scope list_scope.

(** ** Exceptions and results *)

Inductive Exn : Type :=
| RuntimeError (msg : string)
| KeyError (key : string)
| IndexError (index : nat)
| ValueError (msg : string)
| AttributeError (msg : string)
| OSError (path : string).

Inductive Res (A : Type) : Type :=
| Ok (a : A)
| Raise (e : Exn).
Arguments Ok {A} a.
Arguments Raise {A} e.

(** ** Floats *)

Abbreviation scalar := float (only parsing).

(** [float(z)] for a Python int: the nearest binary64 number, ties to
    even. *)
Definition float_of_Z (z : Z) : scalar :=
  SF2Prim (binary_normalize prec emax z 0 false).

Definition float_of_nat (n : nat) : scalar := float_of_Z (Z.of_nat n).

(** The decimal digits of a natural number. *)
Definition digits_of (n : Z) : string := NilEmpty.string_of_uint (N.to_uint (Z.to_N n)).

Definition zero_pad (width : nat) (s : string) : string :=
  (string_of_list_ascii (repeat ("0"%char : Ascii.ascii) (width - String.length s)) ++ s)%string.

(** [f"{x:.<digits>f}"]: the exact value of [x] rounded to [digits]
    decimals, ties to even; ["nan"], ["inf"] and ["-inf"] for the special
    values.  A negative zero and a negative number that rounds to zero keep
    their sign. *)
Definition format_f (digits : nat) (x : scalar) : string :=
  let scale := (10 ^ Z.of_nat digits)%Z in
  let fixed (negative : bool) (q : Z) : string :=
    ((if negative then "-" else "") ++ digits_of (q / scale)
     ++ match digits with
        | 0 => ""
        | _ => "." ++ zero_pad digits (digits_of (q mod scale))
        end)%string in
  match Prim2SF x with
  | S754_nan => "nan"
  | S754_infinity s => if s then "-inf" else "inf"
  | S754_zero s => fixed s 0%Z
  | S754_finite s m e =>
      let num := (Z.pos m * scale * 2 ^ Z.max e 0)%Z in
      let den := (2 ^ Z.max (- e) 0)%Z in
      let q := (num / den)%Z in
      let r := (num mod den)%Z in
      let up := ((den <? 2 * r) || ((den =? 2 * r) && Z.odd q))%Z in
      fixed s (if up then q + 1 else q)%Z
  end.

(** ** numpy arrays of scalars *)

(** [np.zeros(n)] *)
Definition np_zeros (n : nat) : list scalar := replicate n 0%float.

(** [a[i] = v]: numpy raises [IndexError] out of range. *)
Definition np_setitem (a : list scalar) (i : nat) (v : scalar) : Res (list scalar) :=
  if decide (i < length a) then Ok (<[i:=v]> a) else Raise (IndexError i).

(** [a[i]] *)
Definition np_getitem (a : list scalar) (i : nat) : Res scalar :=
  match a !! i with
  | Some v => Ok v
  | None => Raise (IndexError i)
  end.

(** numpy adds the elements of a float64 array by pairwise summation.
    Fewer than eight elements are added one after the other, from [0.0]. *)
Definition sequential_sum (a : list scalar) : scalar := fold_left PrimFloat.add a 0%float.

(** Eight accumulators take the first eight elements and then, block of
    eight by block of eight, the elements that follow. *)
Fixpoint unrolled (r rest : list scalar) (blocks : nat) : list scalar * list scalar :=
  match blocks with
  | 0 => (r, rest)
  | S k => unrolled (zip_with PrimFloat.add r (take 8 rest)) (drop 8 rest) k
  end.

(** From 8 to 128 elements: the accumulators are added pairwise, then the
    elements left over (fewer than eight) one after the other. *)
Definition block_sum (a : list scalar) : scalar :=
  let '(r, rest) := unrolled (take 8 a) (drop 8 a) (length a / 8 - 1) in
  let acc (j : nat) : scalar := nth j r 0%float in
  let res := ((acc 0%nat + acc 1%nat) + (acc 2%nat + acc 3%nat)
              + ((acc 4%nat + acc 5%nat) + (acc 6%nat + acc 7%nat)))%float in
  fold_left PrimFloat.add rest res.

(** Above 128 elements the array is cut in two, the first part a multiple
    of eight long, and the sums of the parts are added.  [depth] bounds the
    number of cuts; the length of the array is more than enough. *)
Fixpoint pairwise_sum (depth : nat) (a : list scalar) : scalar :=
  let n := length a in
  if (n <? 8)%nat then sequential_sum a
  else if (n <=? 128)%nat then block_sum a
  else match depth with
       | 0 => block_sum a
       | S k =>
           let n2 := (n / 2 - (n / 2) mod 8)%nat in
           (pairwise_sum k (take n2 a) + pairwise_sum k (drop n2 a))%float
       end.

(** [a.sum()] on a float64 array: the pairwise sum added to the initial
    value [0.0] of the reduction. *)
Definition np_sum (a : list scalar) : scalar :=
  (0 + pairwise_sum (length a) a)%float.

(** [a.mean()]: the sum divided by the number of elements, in float64.
    On an empty array this is [0.0 / 0.0], that is NaN. *)
Definition np_mean (a : list scalar) : scalar :=
  (np_sum a / float_of_nat (length a))%float.

(** [d[k]] on a Python dict with string keys. *)
Definition dict_getitem {V : Type} (d : gmap string V) (k : string) : Res V :=
  match d !! k with
  | Some v => Ok v
  | None => Raise (KeyError k)
  end.

(** ** Collaborators

    The network, the loss, the metrics and the torch objects are not part
    of [train.py]; they are taken as parameters with the call contracts
    the runners use.  [Ctx] carries the ambient modes set by the
    [torch.autocast] and [torch.no_grad] blocks. *)

Record Ctx : Type := { autocast : bool; grad_enabled : bool }.

Class Collaborators : Type := {
  Tensor : Type;
  LossT : Type;
  Params : Type;
  Buffers : Type;
  Grads : Type;
  Optimizer : Type;
  GradScaler : Type;
  (** [t.to(device)] *)
  tensor_to : Tensor -> string -> Res Tensor;
  (** [model(imgs)] with the module in training mode: the forward pass
      may update the buffers (running statistics of the normalisation
      layers); it does not write the parameters. *)
  forward_train : Ctx -> Params -> Buffers -> Tensor -> Res (Tensor * Buffers);
  (** [model(imgs)] with the module in evaluation mode: the forward pass
      reads the parameters and the buffers and writes neither. *)
  forward_eval : Ctx -> Params -> Buffers -> Tensor -> Res Tensor;
  (** [t.item()] *)
  item : LossT -> scalar;
  dice_score : Tensor -> Tensor -> Res scalar;
  hausdorff_distance : Tensor -> Tensor -> Res scalar;
  (** [scaler.scale(t)] *)
  scaler_scale : GradScaler -> LossT -> LossT;
  (** gradients of a loss tensor with respect to the parameters *)
  autograd : LossT -> Params -> Res Grads;
  grad_add : Grads -> Grads -> Grads;
  (** [g.zero_()]: a gradient of the same shape filled with zeros *)
  grad_zero : Grads -> Grads;
  (** [scaler.step(optimizer)]: unscales the gradients and runs or skips
      the optimizer step. *)
  scaler_step :
    GradScaler -> Optimizer -> Params -> option Grads ->
    Res (GradScaler * Optimizer * Params * option Grads);
  (** [scaler.update()] *)
  scaler_update : GradScaler -> GradScaler;
  (** writing a learning rate into the optimizer's parameter groups *)
  optimizer_set_lr : Optimizer -> scalar -> Optimizer;
}.

Section Runners.
Context `{Collaborators}.

Definition Batch : Type := Tensor * Tensor.

(** The loss function: [criterion(preds, masks)] returns a dict of named
    loss tensors. *)
Definition Criterion : Type := Ctx -> Tensor -> Tensor -> Res (gmap string LossT).

(** ** The objects of a run *)

Record NNModule : Type := {
  parameters : Params;
  buffers : Buffers;
  grad : option Grads;
  training : bool
}.

(** A learning-rate scheduler: its step counter, the last rate it set and
    its schedule ([get_lr] at a given count, which may raise). *)
Record LRScheduler : Type := {
  last_epoch : nat;
  last_lr : scalar;
  get_lr : nat -> Res scalar
}.

(** A directory, a file holding a saved state dict, or the file that a
    write which did not complete leaves behind. *)
Inductive Node : Type :=
| Dir
| File (params : Params) (bufs : Buffers)
| Truncated.

Inductive PrintLine : Type :=
| PDevice (device : string)
| PEpochHeader (epoch total : nat)
| PLr (lr : string)
| PTrain (loss dice : string)
| PVal (loss dice : string)
| PTrainingComplete
| PTest (loss dice : string).

(** Calls observed during a run, in program order. *)
Inductive Event : Type :=
| EvSetSeed
| EvImageDataset (path : string)
| EvConstruct (what : string)
| EvTqdm (desc : string) (total : nat)
| EvModelTrain
| EvModelEval
| EvTo
| EvForward (c : Ctx)
| EvCriterion (c : Ctx)
| EvZeroGrad (set_to_none : bool)
| EvScale
| EvBackward
| EvScalerStep
| EvScalerUpdate
| EvSchedulerStep
| EvDice
| EvHausdorff
| EvSetPostfix (loss dice : string)
| EvPrint (line : PrintLine)
| EvMakedirs (path : string) (exist_ok : bool)
| EvSave (path : string).

Record World : Type := {
  model : NNModule;
  optimizer : Optimizer;
  scaler : GradScaler;
  scheduler : option LRScheduler;
  disk : gmap string Node;
  trace : list Event
}.

Definition set_model (m : NNModule) (w : World) : World :=
  {| model := m; optimizer := optimizer w; scaler := scaler w;
     scheduler := scheduler w; disk := disk w; trace := trace w |}.
Definition set_optimizer (o : Optimizer) (w : World) : World :=
  {| model := model w; optimizer := o; scaler := scaler w;
     scheduler := scheduler w; disk := disk w; trace := trace w |}.
Definition set_scaler (s : GradScaler) (w : World) : World :=
  {| model := model w; optimizer := optimizer w; scaler := s;
     scheduler := scheduler w; disk := disk w; trace := trace w |}.
Definition set_scheduler (s : option LRScheduler) (w : World) : World :=
  {| model := model w; optimizer := optimizer w; scaler := scaler w;
     scheduler := s; disk := disk w; trace := trace w |}.
Definition set_disk (d : gmap string Node) (w : World) : World :=
  {| model := model w; optimizer := optimizer w; scaler := scaler w;
     scheduler := scheduler w; disk := d; trace := trace w |}.
Definition set_trace (t : list Event) (w : World) : World :=
  {| model := model w; optimizer := optimizer w; scaler := scaler w;
     scheduler := scheduler w; disk := disk w; trace := t |}.

(** ** The monad: state passing with exceptions

    A raised exception keeps the world reached so far: mutations made
    before the failing call are not rolled back. *)

Definition M (A : Type) : Type := World -> Res A * World.

Definition ret {A} (a : A) : M A := fun w => (Ok a, w).

Definition bind {A B} (c : M A) (k : A -> M B) : M B :=
  fun w =>
    match c w with
    | (Ok a, w') => k a w'
    | (Raise e, w') => (Raise e, w')
    end.

Definition lift {A} (r : Res A) : M A := fun w => (r, w).
Definition gets {A} (f : World -> A) : M A := fun w => (Ok (f w), w).
Definition modify (f : World -> World) : M unit := fun w => (Ok tt, f w).
Definition emit (ev : Event) : M unit := modify (fun w => set_trace (trace w ++ [ev]) w).

(** A call to a collaborator that touches no object of the world. *)
Definition call {A} (ev : Event) (r : Res A) : M A := bind (emit ev) (fun _ => lift r).

End Runners.

Declare Scope monad_scope.
Delimit Scope monad_scope with monad.
Notation "x <- c ;; k" := (bind c (fun x => k))
  (at level 100, c at next level, right associativity) : monad_scope.
Notation "c ;; k" := (bind c (fun _ => k))
  (at level 100, right associativity) : monad_scope.

Local Open Scope monad_scope.

Section Steps.
Context `{Collaborators}.

(** ** Operations on the objects *)

Definition set_training (b : bool) (m : NNModule) : NNModule :=
  {| parameters := parameters m; buffers := buffers m; grad := grad m; training := b |}.
Definition set_buffers (b : Buffers) (m : NNModule) : NNModule :=
  {| parameters := parameters m; buffers := b; grad := grad m; training := training m |}.
Definition set_grad (g : option Grads) (m : NNModule) : NNModule :=
  {| parameters := parameters m; buffers := buffers m; grad := g; training := training m |}.
Definition set_parameters (p : Params) (m : NNModule) : NNModule :=
  {| parameters := p; buffers := buffers m; grad := grad m; training := training m |}.

(** [model.train()] *)
Definition model_train : M unit :=
  emit EvModelTrain ;;
  modify (fun w => set_model (set_training true (model w)) w).

(** [model.eval()] *)
Definition model_eval : M unit :=
  emit EvModelEval ;;
  modify (fun w => set_model (set_training false (model w)) w).

(** [model(imgs)]: the forward pass follows the module's mode flag. *)
Definition model_call (c : Ctx) (imgs : Tensor) : M Tensor :=
  emit (EvForward c) ;;
  m <- gets model ;;
  if training m then
    r <- lift (forward_train c (parameters m) (buffers m) imgs) ;;
    modify (fun w => set_model (set_buffers (snd r) (model w)) w) ;;
    ret (fst r)
  else
    lift (forward_eval c (parameters m) (buffers m) imgs).

(** [optimizer.zero_grad(set_to_none=...)]: with [set_to_none] every
    gradient is reset to [None]; without it, the gradients that exist are
    filled with zeros in place. *)
Definition optimizer_zero_grad (set_to_none : bool) : M unit :=
  emit (EvZeroGrad set_to_none) ;;
  if set_to_none then modify (fun w => set_model (set_grad None (model w)) w)
  else modify (fun w => set_model (set_grad (grad_zero <$> grad (model w)) (model w)) w).

(** [scaler.scale(t)] *)
Definition scaler_scale_call (t : LossT) : M LossT :=
  emit EvScale ;;
  s <- gets scaler ;;
  ret (scaler_scale s t).

(** [t.backward()]: gradients accumulate into the parameters' [grad]. *)
Definition tensor_backward (t : LossT) : M unit :=
  emit EvBackward ;;
  m <- gets model ;;
  g <- lift (autograd t (parameters m)) ;;
  let g' := match grad m with
            | Some g0 => grad_add g0 g
            | None => g
            end in
  modify (fun w => set_model (set_grad (Some g') (model w)) w).

(** [scaler.step(optimizer)] *)
Definition scaler_step_call : M unit :=
  emit EvScalerStep ;;
  w <- gets id ;;
  r <- lift (scaler_step (scaler w) (optimizer w) (parameters (model w)) (grad (model w))) ;;
  let '(s, o, p, g) := r in
  modify (fun w => set_scaler s (set_optimizer o
            (set_model (set_grad g (set_parameters p (model w))) w))).

(** [scaler.update()] *)
Definition scaler_update_call : M unit :=
  emit EvScalerUpdate ;;
  modify (fun w => set_scaler (scaler_update (scaler w)) w).

(** [scheduler.step()]: the counter is advanced, then the schedule is
    evaluated and the new rate written into the optimizer. *)
Definition scheduler_step (s : LRScheduler) : M unit :=
  emit EvSchedulerStep ;;
  let k := S (last_epoch s) in
  modify (set_scheduler
            (Some {| last_epoch := k; last_lr := last_lr s; get_lr := get_lr s |})) ;;
  lr <- lift (get_lr s k) ;;
  modify (fun w =>
            set_optimizer (optimizer_set_lr (optimizer w) lr)
              (set_scheduler
                 (Some {| last_epoch := k; last_lr := lr; get_lr := get_lr s |}) w)).

(** ** Per-epoch history and the loop variables *)

Record History : Type := {
  loss : list scalar;
  dice : list scalar;
  hausdorff : list scalar
}.

Record Locals : Type := {
  running_loss : scalar;
  running_dice : scalar;
  running_hausdorff : scalar;
  history : History
}.

Definition init_locals (n_batches : nat) : Locals :=
  {| running_loss := 0%float; running_dice := 0%float; running_hausdorff := 0%float;
     history := {| loss := np_zeros n_batches; dice := np_zeros n_batches;
                   hausdorff := np_zeros n_batches |} |}.

Definition ctx_train : Ctx := {| autocast := true; grad_enabled := true |}.
Definition ctx_eval : Ctx := {| autocast := false; grad_enabled := false |}.

(** What the first half of a loop body leaves in scope for the
    bookkeeping half: the loss dict, the predictions and the masks. *)
Record Outputs : Type := {
  out_loss : gmap string LossT;
  out_preds : Tensor;
  out_masks : Tensor
}.

(** Lines 55-66 and 86-97: record the three values of batch [i], add them
    to the running sums and refresh the progress display. *)
Definition record_batch (i : nat) (o : Outputs) (l : Locals) : M Locals :=
  combined <- lift (dict_getitem (out_loss o) "combined") ;;
  h_loss <- lift (np_setitem (loss (history l)) i (item combined)) ;;
  d <- call EvDice (dice_score (out_preds o) (out_masks o)) ;;
  h_dice <- lift (np_setitem (dice (history l)) i d) ;;
  hd <- call EvHausdorff (hausdorff_distance (out_preds o) (out_masks o)) ;;
  h_hausdorff <- lift (np_setitem (hausdorff (history l)) i hd) ;;
  x_loss <- lift (np_getitem h_loss i) ;;
  x_dice <- lift (np_getitem h_dice i) ;;
  x_hausdorff <- lift (np_getitem h_hausdorff i) ;;
  let running_loss' := (running_loss l + x_loss)%float in
  let running_dice' := (running_dice l + x_dice)%float in
  let running_hausdorff' := (running_hausdorff l + x_hausdorff)%float in
  emit (EvSetPostfix (format_f 4 (running_loss' / float_of_nat (i + 1))%float)
                     (format_f 4 (running_dice' / float_of_nat (i + 1))%float)) ;;
  ret {| running_loss := running_loss'; running_dice := running_dice';
         running_hausdorff := running_hausdorff';
         history := {| loss := h_loss; dice := h_dice; hausdorff := h_hausdorff |} |}.

(** ** [train_step] *)

(** Lines 43-53: device transfer, forward pass and loss under autocast,
    then the gradient update. *)
Definition train_update (criterion : Criterion) (device : string) (b : Batch) : M Outputs :=
  imgs <- call EvTo (tensor_to (fst b) device) ;;
  masks <- call EvTo (tensor_to (snd b) device) ;;
  preds <- model_call ctx_train imgs ;;
  loss_t <- call (EvCriterion ctx_train) (criterion ctx_train preds masks) ;;
  optimizer_zero_grad true ;;
  combined <- lift (dict_getitem loss_t "combined") ;;
  scaled <- scaler_scale_call combined ;;
  tensor_backward scaled ;;
  scaler_step_call ;;
  scaler_update_call ;;
  sch <- gets scheduler ;;
  match sch with
  | Some s => scheduler_step s
  | None => ret tt
  end ;;
  ret {| out_loss := loss_t; out_preds := preds; out_masks := masks |}.

(** The body of the loop at lines 42-66. *)
Definition train_batch (criterion : Criterion) (device : string)
    (i : nat) (b : Batch) (l : Locals) : M Locals :=
  o <- train_update criterion device b ;;
  record_batch i o l.

(** [for i, (imgs, masks) in enumerate(dataloader)] *)
Fixpoint train_loop (criterion : Criterion) (device : string)
    (batches : list Batch) (i : nat) (l : Locals) : M Locals :=
  match batches with
  | [] => ret l
  | b :: rest =>
      l' <- train_batch criterion device i b l ;;
      train_loop criterion device rest (S i) l'
  end.

(** [dataloader] is the sequence of batches one pass over the loader
    yields; [len(dataloader)] is its length. *)
Definition train_step (criterion : Criterion) (device : string)
    (dataloader : list Batch) : M History :=
  let n_batches := length dataloader in
  emit (EvTqdm "Training" n_batches) ;;
  model_train ;;
  l <- train_loop criterion device dataloader 0 (init_locals n_batches) ;;
  ret (history l).

(** ** [eval_step] *)

(** Lines 82-84: device transfer, forward pass and loss. *)
Definition eval_forward (criterion : Criterion) (device : string) (b : Batch) : M Outputs :=
  imgs <- call EvTo (tensor_to (fst b) device) ;;
  masks <- call EvTo (tensor_to (snd b) device) ;;
  preds <- model_call ctx_eval imgs ;;
  loss_t <- call (EvCriterion ctx_eval) (criterion ctx_eval preds masks) ;;
  ret {| out_loss := loss_t; out_preds := preds; out_masks := masks |}.

(** The body of the loop at lines 81-97. *)
Definition eval_batch (criterion : Criterion) (device : string)
    (i : nat) (b : Batch) (l : Locals) : M Locals :=
  o <- eval_forward criterion device b ;;
  record_batch i o l.

Fixpoint eval_loop (criterion : Criterion) (device : string)
    (batches : list Batch) (i : nat) (l : Locals) : M Locals :=
  match batches with
  | [] => ret l
  | b :: rest =>
      l' <- eval_batch criterion device i b l ;;
      eval_loop criterion device rest (S i) l'
  end.

Definition eval_step (criterion : Criterion) (device : string)
    (dataloader : list Batch) (desc : string) : M History :=
  let n_batches := length dataloader in
  emit (EvTqdm desc n_batches) ;;
  model_eval ;;
  l <- eval_loop criterion device dataloader 0 (init_locals n_batches) ;;
  ret (history l).

End Steps.

(** ** The orchestrator [train] *)

(** [DataLoader(dataset, batch_size=..., shuffle=..., num_workers=...,
    pin_memory=...)] *)
Record DataLoader (Dataset : Type) : Type := {
  dataset : Dataset;
  batch_size : nat;
  shuffle : bool;
  num_workers : nat;
  pin_memory : bool
}.
Arguments dataset {Dataset} _.
Arguments batch_size {Dataset} _.
Arguments shuffle {Dataset} _.
Arguments num_workers {Dataset} _.
Arguments pin_memory {Dataset} _.

(** The constants of [utils.constants] and the constructors [train] calls
    are taken as parameters. *)
Class Providers `{Collaborators} : Type := {
  N_EPOCHS : nat;
  LEARNING_RATE : scalar;
  BATCH_SIZE : nat;
  NUM_WORKERS : nat;
  DEVICE : string;
  Dataset : Type;
  Transforms : Type;
  get_train_transforms : Transforms;
  get_val_transforms : Transforms;
  ImageDataset : string -> Transforms -> Res Dataset;
  (** [len(loader)] *)
  loader_len : DataLoader Dataset -> nat;
  (** the batches the loader yields on its [k]-th pass *)
  loader_batches : DataLoader Dataset -> nat -> list Batch;
  (** [UNet(in_channels, out_channels)]: freshly initialised parameters
      and buffers *)
  UNet : nat -> nat -> Res (Params * Buffers);
  (** [module.to(device)] *)
  module_to : Params * Buffers -> string -> Res (Params * Buffers);
  AdamW : Params -> scalar -> Optimizer;
  (** [OneCycleLR(optimizer, max_lr, steps_per_epoch, epochs)]: the new
      scheduler and the optimizer with its initial rate written *)
  OneCycleLR : Optimizer -> scalar -> nat -> nat -> Res (LRScheduler * Optimizer);
  BCEDiceLoss : Criterion;
  (** [torch.amp.GradScaler()] *)
  new_GradScaler : GradScaler;
  (** the operating system creating a directory: it may refuse *)
  os_mkdir : string -> Res unit;
  (** the operating system opening a file for writing, in a directory that
      exists: it may refuse *)
  os_open_write : string -> Res unit;
  (** [torch.save] once the file is open: serialising the state dict and
      writing it out may fail *)
  serialize : Params -> Buffers -> Res unit;
}.

(** [os.path.dirname] *)
Fixpoint dirname_aux (s : string) : option string :=
  match s with
  | EmptyString => None
  | String c r =>
      match dirname_aux r with
      | Some d => Some (String c d)
      | None => if Ascii.eqb c ("/"%char : Ascii.ascii) then Some EmptyString else None
      end
  end.
Definition dirname (s : string) : string := default EmptyString (dirname_aux s).

Section Orchestrator.
Context `{Providers}.

(** [os.makedirs(path, exist_ok=...)]: creates the directory when absent,
    if the operating system lets it; an existing directory is accepted
    only with [exist_ok]; a file at that path is an error. *)
Definition os_makedirs (path : string) (exist_ok : bool) : M unit :=
  emit (EvMakedirs path exist_ok) ;;
  d <- gets disk ;;
  match d !! path with
  | None => lift (os_mkdir path) ;; modify (set_disk (<[path := Dir]> d))
  | Some Dir => if exist_ok then ret tt else lift (Raise (OSError path))
  | Some (File _ _) | Some Truncated => lift (Raise (OSError path))
  end.

(** [torch.save(model.state_dict(), path)]: opens [path] for writing, which
    needs the enclosing directory, fails on a directory at [path] and may
    be refused, and writes the parameters and buffers.  A write that fails
    leaves a truncated file behind. *)
Definition torch_save (path : string) : M unit :=
  emit (EvSave path) ;;
  m <- gets model ;;
  d <- gets disk ;;
  match d !! dirname path with
  | Some Dir =>
      match d !! path with
      | Some Dir => lift (Raise (OSError path))
      | _ =>
          lift (os_open_write path) ;;
          match serialize (parameters m) (buffers m) with
          | Ok _ => modify (set_disk (<[path := File (parameters m) (buffers m)]> d))
          | Raise e => modify (set_disk (<[path := Truncated]> d)) ;; lift (Raise e)
          end
      end
  | _ => lift (Raise (OSError path))
  end.

(** [scheduler.get_last_lr()[0]] *)
Definition get_last_lr : M scalar :=
  sch <- gets scheduler ;;
  match sch with
  | Some s => ret (last_lr s)
  | None => lift (Raise (AttributeError "get_last_lr"))
  end.

(** The body of the epoch loop, lines 126-138. *)
Definition train_epoch (criterion : Criterion)
    (train_loader val_loader : DataLoader Dataset) (epoch : nat) : M unit :=
  emit (EvPrint (PEpochHeader (epoch + 1) N_EPOCHS)) ;;
  train_hist <- train_step criterion DEVICE (loader_batches train_loader epoch) ;;
  val_hist <- eval_step criterion DEVICE (loader_batches val_loader epoch) "Validating" ;;
  let train_loss := np_mean (loss train_hist) in
  let train_dice := np_mean (dice train_hist) in
  let val_loss := np_mean (loss val_hist) in
  let val_dice := np_mean (dice val_hist) in
  lr <- get_last_lr ;;
  emit (EvPrint (PLr (format_f 6 lr))) ;;
  emit (EvPrint (PTrain (format_f 4 train_loss) (format_f 4 train_dice))) ;;
  emit (EvPrint (PVal (format_f 4 val_loss) (format_f 4 val_dice))).

(** [for epoch in range(N_EPOCHS)] *)
Fixpoint train_epochs (criterion : Criterion)
    (train_loader val_loader : DataLoader Dataset) (epochs : list nat) : M unit :=
  match epochs with
  | [] => ret tt
  | epoch :: rest =>
      train_epoch criterion train_loader val_loader epoch ;;
      train_epochs criterion train_loader val_loader rest
  end.

Definition mk_loader (ds : Dataset) (shuffled : bool) : DataLoader Dataset :=
  {| dataset := ds; batch_size := BATCH_SIZE; shuffle := shuffled;
     num_workers := NUM_WORKERS; pin_memory := true |}.

(** Lines 141-147: the test pass, then the single save. *)
Definition test_and_save (criterion : Criterion) (test_loader : DataLoader Dataset) : M unit :=
  test_hist <- eval_step criterion DEVICE (loader_batches test_loader 0) "Testing" ;;
  let test_loss := np_mean (loss test_hist) in
  let test_dice := np_mean (dice test_hist) in
  emit (EvPrint (PTest (format_f 4 test_loss) (format_f 4 test_dice))) ;;
  os_makedirs "../models" true ;;
  torch_save "../models/UNet.pth".

Definition train : M unit :=
  emit EvSetSeed ;;
  emit (EvPrint (PDevice DEVICE)) ;;
  train_set <- call (EvImageDataset "../data/train")
                 (ImageDataset "../data/train" get_train_transforms) ;;
  val_set <- call (EvImageDataset "../data/val")
               (ImageDataset "../data/val" get_val_transforms) ;;
  test_set <- call (EvImageDataset "../data/test")
                (ImageDataset "../data/test" get_val_transforms) ;;
  let train_loader := mk_loader train_set true in
  let val_loader := mk_loader val_set false in
  let test_loader := mk_loader test_set false in
  pb <- call (EvConstruct "UNet") (UNet 3 1) ;;
  pb <- call EvTo (module_to pb DEVICE) ;;
  modify (set_model {| parameters := fst pb; buffers := snd pb;
                       grad := None; training := true |}) ;;
  emit (EvConstruct "AdamW") ;;
  modify (set_optimizer (AdamW (fst pb) LEARNING_RATE)) ;;
  o <- gets optimizer ;;
  so <- call (EvConstruct "OneCycleLR")
          (OneCycleLR o LEARNING_RATE (loader_len train_loader) N_EPOCHS) ;;
  modify (fun w => set_optimizer (snd so) (set_scheduler (Some (fst so)) w)) ;;
  let criterion := BCEDiceLoss in
  emit (EvConstruct "GradScaler") ;;
  modify (set_scaler new_GradScaler) ;;
  train_epochs criterion train_loader val_loader (seq 0 N_EPOCHS) ;;
  emit (EvPrint PTrainingComplete) ;;
  test_and_save criterion test_loader.

End Orchestrator.

(** ** Vocabulary for the statements about traces *)

Section Vocabulary.
Context `{Collaborators}.

(** The calls of lines 43-53, in program order. *)
Definition train_update_events (with_scheduler : bool) : list Event :=
  [EvTo; EvTo; EvForward ctx_train; EvCriterion ctx_train; EvZeroGrad true;
   EvScale; EvBackward; EvScalerStep; EvScalerUpdate]
  ++ (if with_scheduler then [EvSchedulerStep] else []).

(** The calls of lines 82-84. *)
Definition eval_forward_events : list Event :=
  [EvTo; EvTo; EvForward ctx_eval; EvCriterion ctx_eval].

(** The two running averages of the progress display after [count]
    batches, as shown. *)
Definition shown_averages (l : Locals) (count : nat) : string * string :=
  (format_f 4 (running_loss l / float_of_nat count)%float,
   format_f 4 (running_dice l / float_of_nat count)%float).

(** The calls of the bookkeeping half, ending with the progress display. *)
Definition record_events (shown : string * string) : list Event :=
  [EvDice; EvHausdorff; EvSetPostfix (fst shown) (snd shown)].

(** Calls that touch the optimizer, the scaler or the scheduler. *)
Definition is_update_event (e : Event) : bool :=
  match e with
  | EvZeroGrad _ | EvScale | EvBackward | EvScalerStep | EvScalerUpdate
  | EvSchedulerStep => true
  | _ => false
  end.

(** Forward passes, loss and metric computations. *)
Definition is_compute_event (e : Event) : bool :=
  match e with
  | EvTo | EvForward _ | EvCriterion _ | EvDice | EvHausdorff => true
  | _ => false
  end.

(** Calls of [scheduler.step()]. *)
Definition is_scheduler_event (e : Event) : bool :=
  match e with
  | EvSchedulerStep => true
  | _ => false
  end.

(** Calls that write to the file system. *)
Definition is_disk_event (e : Event) : bool :=
  match e with
  | EvMakedirs _ _ | EvSave _ => true
  | _ => false
  end.

(** Calls of [torch.save]. *)
Definition is_save_event (e : Event) : bool :=
  match e with
  | EvSave _ => true
  | _ => false
  end.

(** The per-epoch summary line of the validation split closes an epoch. *)
Definition is_epoch_summary (e : Event) : bool :=
  match e with
  | EvPrint (PVal _ _) => true
  | _ => false
  end.

(** An event with the displayed numbers blanked: the call that was made,
    not the values it showed. *)
Definition shape (e : Event) : Event :=
  match e with
  | EvSetPostfix _ _ => EvSetPostfix "" ""
  | _ => e
  end.

(** Everything of a world but its trace. *)
Definition objects (w : World) : World := set_trace [] w.

(** The history after the three values of batch [i] are stored. *)
Definition written (i : nat) (x d hd : scalar) (h : History) : History :=
  {| loss := <[i:=x]> (loss h); dice := <[i:=d]> (dice h);
     hausdorff := <[i:=hd]> (hausdorff h) |}.

(** Whether a scheduler was passed to [train_step]. *)
Definition has_scheduler (w : World) : bool :=
  match scheduler w with
  | Some _ => true
  | None => false
  end.

(** The scheduler's step counter, when there is a scheduler. *)
Definition step_count (w : World) : option nat := last_epoch <$> scheduler w.

(** [run_spec ws evs n c]: a successful run of [c], started with
    ([ws = true]) or without a scheduler, makes exactly the calls [evs],
    advances the scheduler [n] times and leaves the file system and the
    mode flag of the model alone. *)
Definition run_spec (ws : bool) (evs : list Event) (n : nat) {A} (c : M A) : Prop :=
  forall w a w',
    has_scheduler w = ws ->
    c w = (Ok a, w') ->
    trace w' = trace w ++ evs /\
    step_count w' = Nat.add n <$> step_count w /\
    disk w' = disk w /\
    training (model w') = training (model w).

(** The common form of the two loops: a first half [body] that computes
    the outputs of a batch, then the bookkeeping. *)
Fixpoint pass_loop (body : Batch -> M Outputs)
    (batches : list Batch) (i : nat) (l : Locals) : M Locals :=
  match batches with
  | [] => ret l
  | b :: rest =>
      l' <- (o <- body b ;; record_batch i o l) ;;
      pass_loop body rest (S i) l'
  end.

(** The calls of a whole pass whose batches make the calls [evs] in their
    first half and display [shown] at their end. *)
Definition pass_events (evs : list Event) (shown : list (string * string)) : list Event :=
  concat (map (fun sd => evs ++ record_events sd) shown).

(** The three values a batch's outputs put in the history. *)
Definition recorded (o : Outputs) (x d hd : scalar) : Prop :=
  (exists c, out_loss o !! "combined" = Some c /\ x = item c) /\
  dice_score (out_preds o) (out_masks o) = Ok d /\
  hausdorff_distance (out_preds o) (out_masks o) = Ok hd.

(** The history has [n] entries per sequence. *)
Definition history_length (h : History) (n : nat) : Prop :=
  length (loss h) = n /\ length (dice h) = n /\ length (hausdorff h) = n.

(** Entry [k] of the history holds the values [x], [d], [hd]. *)
Definition history_at (h : History) (k : nat) (x d hd : scalar) : Prop :=
  loss h !! k = Some x /\ dice h !! k = Some d /\ hausdorff h !! k = Some hd.

(** The two epoch runners. *)
Inductive Runner : Type :=
| TrainRunner
| EvalRunner (desc : string).

Definition runner_step (r : Runner) (criterion : Criterion) (device : string)
    (dataloader : list Batch) : M History :=
  match r with
  | TrainRunner => train_step criterion device dataloader
  | EvalRunner desc => eval_step criterion device dataloader desc
  end.

(** The first half of the runner's loop body. *)
Definition runner_body (r : Runner) (criterion : Criterion) (device : string)
    (b : Batch) : M Outputs :=
  match r with
  | TrainRunner => train_update criterion device b
  | EvalRunner _ => eval_forward criterion device b
  end.

(** The runner stopped when it reaches batch [k]: the loop variables and
    the world in which the iteration of batch [k] starts. *)
Definition runner_prefix (r : Runner) (criterion : Criterion) (device : string)
    (dataloader : list Batch) (k : nat) : M Locals :=
  let n_batches := length dataloader in
  match r with
  | TrainRunner =>
      emit (EvTqdm "Training" n_batches) ;;
      model_train ;;
      train_loop criterion device (take k dataloader) 0 (init_locals n_batches)
  | EvalRunner desc =>
      emit (EvTqdm desc n_batches) ;;
      model_eval ;;
      eval_loop criterion device (take k dataloader) 0 (init_locals n_batches)
  end.

(** The calls a runner makes before its loop. *)
Definition runner_enter_events (r : Runner) (n_batches : nat) : list Event :=
  match r with
  | TrainRunner => [EvTqdm "Training" n_batches; EvModelTrain]
  | EvalRunner desc => [EvTqdm desc n_batches; EvModelEval]
  end.

(** The calls of the first half of a runner's loop body. *)
Definition runner_body_events (r : Runner) (with_scheduler : bool) : list Event :=
  match r with
  | TrainRunner => train_update_events with_scheduler
  | EvalRunner _ => eval_forward_events
  end.

(** The number of scheduler steps of one iteration. *)
Definition runner_body_steps (r : Runner) (with_scheduler : bool) : nat :=
  match r with
  | TrainRunner => if with_scheduler then 1 else 0
  | EvalRunner _ => 0
  end.

(** With the model in evaluation mode, the objects are left as they were. *)
Definition eval_mode_frame : relation World :=
  fun w w' => training (model w) = false -> objects w' = objects w.

(** Two worlds with the same model whose traces, after [t1] and [t2], go
    on with the same events. *)
Definition trace_twin (t1 t2 : list Event) : relation World :=
  fun w1 w2 =>
    model w1 = model w2 /\
    exists evs, trace w1 = t1 ++ evs /\ trace w2 = t2 ++ evs.

(** [agree R c1 c2]: from [R]-related worlds the two computations give the
    same result, raised exceptions included, and [R]-related worlds. *)
Definition agree (R : relation World) {A} (c1 c2 : M A) : Prop :=
  forall w1 w2, R w1 w2 -> (c1 w1).1 = (c2 w2).1 /\ R (c1 w1).2 (c2 w2).2.

(** Calls other than those on the optimizer, the scaler or the scheduler. *)
Definition not_update (e : Event) : bool := negb (is_update_event e).

(** Calls that leave the file system alone. *)
Definition not_disk (e : Event) : bool := negb (is_disk_event e).

(** The number of epochs summarised in a list of events. *)
Definition count_summaries (evs : list Event) : nat :=
  length (List.filter is_epoch_summary evs).

(** [track n c]: whatever its outcome, [c] leaves the file system alone
    and makes no call on it; when it succeeds it has printed [n] epoch
    summaries. *)
Definition track (n : nat) {A} (c : M A) : Prop :=
  forall w,
    disk (c w).2 = disk w /\
    exists evs,
      trace (c w).2 = trace w ++ evs /\
      forallb not_disk evs = true /\
      (forall a, (c w).1 = Ok a -> count_summaries evs = n).

(** Calls other than [torch.save]. *)
Definition not_save (e : Event) : bool := negb (is_save_event e).

(** The gradients of [w'] are those of [w] filled with zeros, each kept
    in place: what zeroing without resetting to [None] leaves. *)
Definition zeroed_in_place (w w' : World) : Prop :=
  grad (model w') = grad_zero <$> grad (model w).

(** [holds R c]: every run of [c], successful or not, takes a world to an
    [R]-related world. *)
Definition holds (R : relation World) {A} (c : M A) : Prop :=
  forall w, R w (c w).2.

(** The trace only grows, by events satisfying [P]. *)
Definition extends_by (P : Event -> bool) : relation World :=
  fun w w' => exists evs, trace w' = trace w ++ evs /\ forallb P evs = true.


(** The world in which a runner's loop starts: the progress bar is
    created and the mode of the model set. *)
Definition runner_enter_world (r : Runner) (n_batches : nat) (w : World) : World :=
  set_model
    (set_training (match r with TrainRunner => true | EvalRunner _ => false end) (model w))
    (set_trace (trace w ++ runner_enter_events r n_batches) w).

(** The three values the bookkeeping half takes from a batch's outputs,
    or the first exception on the way: the missing "combined" entry, then
    the two metrics. *)
Definition batch_values (o : Outputs) : Res (scalar * scalar * scalar) :=
  match dict_getitem (out_loss o) "combined" with
  | Raise e => Raise e
  | Ok c =>
      match dice_score (out_preds o) (out_masks o) with
      | Raise e => Raise e
      | Ok d =>
          match hausdorff_distance (out_preds o) (out_masks o) with
          | Raise e => Raise e
          | Ok hd => Ok (item c, d, hd)
          end
      end
  end.

(** The mode flag of the model is what it was. *)
Definition keeps_mode : relation World :=
  fun w w' => training (model w') = training (model w).

(** Lines 82-84 as a function of the parameters and buffers of a model in
    evaluation mode: the outputs of a batch, or the first exception. *)
Definition eval_outputs (criterion : Criterion) (device : string)
    (p : Params) (bf : Buffers) (b : Batch) : Res Outputs :=
  match tensor_to b.1 device with
  | Raise e => Raise e
  | Ok imgs =>
      match tensor_to b.2 device with
      | Raise e => Raise e
      | Ok masks =>
          match forward_eval ctx_eval p bf imgs with
          | Raise e => Raise e
          | Ok preds =>
              match criterion ctx_eval preds masks with
              | Raise e => Raise e
              | Ok loss_t =>
                  Ok {| out_loss := loss_t; out_preds := preds; out_masks := masks |}
              end
          end
      end
  end.

(** The three values an evaluation pass records for a batch. *)
Definition eval_values (criterion : Criterion) (device : string)
    (p : Params) (bf : Buffers) (b : Batch) : Res (scalar * scalar * scalar) :=
  match eval_outputs criterion device p bf b with
  | Raise e => Raise e
  | Ok o => batch_values o
  end.

(** [f] on every element in order, stopping at the first exception. *)
Fixpoint res_map {A B : Type} (f : A -> Res B) (l : list A) : Res (list B) :=
  match l with
  | [] => Ok []
  | a :: rest =>
      match f a with
      | Raise e => Raise e
      | Ok b =>
          match res_map f rest with
          | Raise e => Raise e
          | Ok bs => Ok (b :: bs)
          end
      end
  end.

(** The history made of a list of per-batch values. *)
Definition history_of_values (vals : list (scalar * scalar * scalar)) : History :=
  {| loss := (fun v => v.1.1) <$> vals;
     dice := (fun v => v.1.2) <$> vals;
     hausdorff := (fun v => v.2) <$> vals |}.

(** An evaluation pass as a batch-wise map. *)
Definition eval_history (criterion : Criterion) (device : string)
    (p : Params) (bf : Buffers) (dataloader : list Batch) : Res History :=
  match res_map (eval_values criterion device p bf) dataloader with
  | Raise e => Raise e
  | Ok vals => Ok (history_of_values vals)
  end.

(** Two histories one after the other. *)
Definition history_app (h1 h2 : History) : History :=
  {| loss := loss h1 ++ loss h2;
     dice := dice h1 ++ dice h2;
     hausdorff := hausdorff h1 ++ hausdorff h2 |}.

(** [xs] written over [a] from index [i] on. *)
Definition overwrite (i : nat) (xs a : list scalar) : list scalar :=
  take i a ++ xs ++ drop (i + length xs) a.

(** The creation of a progress bar: the start of a pass. *)
Definition is_pass_start (e : Event) : bool :=
  match e with
  | EvTqdm _ _ => true
  | _ => false
  end.

(** Two worlds with the same objects: they differ at most in their traces. *)
Definition same_objects : relation World :=
  fun w1 w2 => objects w1 = objects w2.

(** The history [h] with the per-batch values [vals] written from index
    [i] on. *)
Definition overwrite_history (i : nat) (vals : list (scalar * scalar * scalar)) (h : History) : History :=
  {| loss := overwrite i ((fun v => v.1.1) <$> vals) (loss h);
     dice := overwrite i ((fun v => v.1.2) <$> vals) (dice h);
     hausdorff := overwrite i ((fun v => v.2) <$> vals) (hausdorff h) |}.

End Vocabulary.

Section OrchestratorVocabulary.
Context `{Providers}.

(** The run ended with the test summary, the creation of the directory
    and the single save, after [n] epoch summaries and no earlier call on
    the file system; the file holds the parameters and buffers of the final
    model. *)
Definition saved_once (n : nat) (w w' : World) : Prop :=
  exists pre test_loss test_dice,
    trace w' = trace w ++ pre ++
      [EvPrint (PTest test_loss test_dice); EvMakedirs "../models" true;
       EvSave "../models/UNet.pth"] /\
    forallb not_disk pre = true /\
    count_summaries pre = n /\
    disk w' =
      <["../models/UNet.pth" := File (parameters (model w')) (buffers (model w'))]>
        (<["../models" := Dir]> (disk w)).

(** The file system is as it was and no save was attempted. *)
Definition nothing_saved (w w' : World) : Prop :=
  disk w' = disk w /\
  exists evs, trace w' = trace w ++ evs /\ forallb not_save evs = true.

(** The save was attempted, as the last call, and failed.  The directory
    exists; the file is as it was or, when the write broke off, truncated;
    the rest of the file system is as it was. *)
Definition save_failed (w w' : World) : Prop :=
  (exists pre,
     trace w' = trace w ++ pre ++ [EvSave "../models/UNet.pth"] /\
     forallb not_save pre = true) /\
  disk w' !! "../models" = Some Dir /\
  (disk w' !! "../models/UNet.pth" = disk w !! "../models/UNet.pth" \/
   disk w' !! "../models/UNet.pth" = Some Truncated) /\
  forall path, path <> "../models" -> path <> "../models/UNet.pth" ->
    disk w' !! path = disk w !! path.

(** [saves_at_end n c]: a run of [c] that succeeds has saved once, at its
    end; a run that raises has saved nothing, or has failed in the save
    itself. *)
Definition saves_at_end (n : nat) {A} (c : M A) : Prop :=
  forall w,
    match c w with
    | (Ok _, w') => saved_once n w w'
    | (Raise _, w') => nothing_saved w w' \/ save_failed w w'
    end.

(** The calls of lines 103-123, before the first epoch. *)
Definition train_setup_events : list Event :=
  [EvSetSeed; EvPrint (PDevice DEVICE); EvImageDataset "../data/train";
   EvImageDataset "../data/val"; EvImageDataset "../data/test";
   EvConstruct "UNet"; EvTo; EvConstruct "AdamW"; EvConstruct "OneCycleLR";
   EvConstruct "GradScaler"].

(** The world in which the first epoch starts: the fresh model on the
    device, the optimizer as the scheduler's constructor left it, the
    scheduler, a new scaler. *)
Definition train_setup_world (pb : Params * Buffers) (so : LRScheduler * Optimizer)
    (w : World) : World :=
  {| model := {| parameters := pb.1; buffers := pb.2; grad := None; training := true |};
     optimizer := so.2;
     scaler := new_GradScaler;
     scheduler := Some so.1;
     disk := disk w;
     trace := trace w ++ train_setup_events |}.

(** The progress bars of the epochs: a training pass, then a validation
    pass, per epoch. *)
Definition epoch_passes (train_loader val_loader : DataLoader Dataset)
    (epochs : list nat) : list Event :=
  epoch ← epochs;
  [EvTqdm "Training" (length (loader_batches train_loader epoch));
   EvTqdm "Validating" (length (loader_batches val_loader epoch))].

(** The number of training batches of the epochs. *)
Definition training_batches (train_loader : DataLoader Dataset) (epochs : list nat) : nat :=
  sum_list ((fun epoch => length (loader_batches train_loader epoch)) <$> epochs).

End OrchestratorVocabulary.

(** ** A small concrete instance

    Numbers stand for tensors; it serves to run the definitions. *)

Module Toy.

Definition toy : Collaborators := {|
  Tensor := float;
  LossT := float;
  Params := float;
  Buffers := Z;
  Grads := float;
  Optimizer := float;
  GradScaler := float;
  tensor_to := fun t device =>
    if String.eqb device "cpu" then Ok t else Raise (RuntimeError "no such device");
  forward_train := fun _ p b x => Ok ((p * x)%float, (b + 1)%Z);
  forward_eval := fun _ p _ x => Ok (p * x)%float;
  item := fun t => t;
  dice_score := fun preds masks =>
    Ok ((if PrimFloat.ltb preds masks then preds else masks) / 4)%float;
  hausdorff_distance := fun preds masks => Ok (PrimFloat.abs (preds - masks));
  scaler_scale := fun s t => (s * t)%float;
  autograd := fun t _ => Ok t;
  grad_add := PrimFloat.add;
  grad_zero := fun _ => 0%float;
  scaler_step := fun s o p g =>
    Ok (s, o, match g with Some _ => (p + 1)%float | None => p end, g);
  scaler_update := fun s => s;
  optimizer_set_lr := fun _ lr => lr
|}.

#[local] Existing Instance toy.

Definition criterion : @Criterion toy :=
  fun _ preds masks => Ok {[ "combined" := ((preds - masks) / 10)%float ]}.

Definition sched : LRScheduler :=
  {| last_epoch := 0; last_lr := 0.00004%float;
     get_lr := fun k => if (k <=? 8)%nat then Ok 0.001%float
                        else Raise (ValueError "too many steps") |}.

Definition world : @World toy :=
  {| model := {| parameters := 1%float; buffers := 0%Z; grad := Some 5%float;
                 training := false |};
     optimizer := 0.001%float;
     scaler := 2%float;
     scheduler := Some sched;
     disk := ∅;
     trace := [] |}.

Definition batches : list (@Batch toy) := [(1, 0); (1, 0); (1, 0)]%float.

(** A loss function whose dict has no "combined" entry. *)
Definition criterion_no_combined : @Criterion toy :=
  fun _ _ _ => Ok ∅.

(** A loss function whose combined loss, in hundredths, is the difference
    between the predictions and the masks. *)
Definition criterion_hundredths : @Criterion toy :=
  fun _ preds masks => Ok {[ "combined" := ((preds - masks) / 100)%float ]}.

(** Eight batches that evaluate, with the parameter at 1 and
    [criterion_hundredths], to the losses 0.90, 0.89, 0.77, 0.76, 0.75,
    0.52, 0.52, 0.28. *)
Definition batches8 : list (@Batch toy) :=
  [(90, 0); (89, 0); (77, 0); (76, 0); (75, 0); (52, 0); (52, 0); (28, 0)]%float.

(** What a training pass over [batches] from [world] records. *)
Definition train_history : History :=
  {| loss := [0.1; 0.2; 0.3]%float;
     dice := [0; 0; 0]%float;
     hausdorff := [1; 2; 3]%float |}.

(** What an evaluation pass over [batches] from [world] records. *)
Definition eval_history : History :=
  {| loss := [0.1; 0.1; 0.1]%float;
     dice := [0; 0; 0]%float;
     hausdorff := [1; 1; 1]%float |}.

Definition providers_saving (write : float -> Z -> Res unit) : @Providers toy := {|
  os_mkdir := fun _ => Ok tt;
  os_open_write := fun _ => Ok tt;
  N_EPOCHS := 2;
  LEARNING_RATE := 0.001%float;
  BATCH_SIZE := 1;
  NUM_WORKERS := 0;
  DEVICE := "cpu";
  Dataset := list (@Batch toy);
  Transforms := unit;
  get_train_transforms := tt;
  get_val_transforms := tt;
  ImageDataset := fun path _ =>
    if String.eqb path "../data/train" then Ok [(1, 0); (1, 0); (1, 0)]%float
    else if String.eqb path "../data/val" then Ok [(1, 0); (2, 1)]%float
    else Ok [(2, 0)]%float;
  loader_len := fun dl => length (dataset dl);
  loader_batches := fun dl _ => dataset dl;
  UNet := fun _ _ => Ok (1%float, 0%Z);
  module_to := fun pb device =>
    if String.eqb device "cpu" then Ok pb else Raise (RuntimeError "no such device");
  AdamW := fun _ lr => lr;
  OneCycleLR := fun o max_lr steps_per_epoch epochs =>
    if (steps_per_epoch * epochs =? 0)%nat then Raise (ValueError "total_steps")
    else Ok ({| last_epoch := 0; last_lr := (max_lr / 25)%float;
                get_lr := fun k => if (k <=? steps_per_epoch * epochs)%nat then Ok max_lr
                                   else Raise (ValueError "too many steps") |},
             (max_lr / 25)%float);
  BCEDiceLoss := criterion;
  new_GradScaler := 65536%float;
  serialize := write
|}.

Definition providers : @Providers toy := providers_saving (fun _ _ => Ok tt).

(** The instance on a device that is full: every write breaks off. *)
Definition providers_disk_full : @Providers toy :=
  providers_saving (fun _ _ => Raise (OSError "No space left on device")).


End Toy.

(** * Properties *)

Section Proofs.
Context `{Providers}.

(** ** Running the monad *)

Lemma bind_ok_inv {A B} (c : M A) (k : A -> M B) w b w' :
  bind c k w = (Ok b, w') ->
  exists a w1, c w = (Ok a, w1) /\ k a w1 = (Ok b, w').
Proof.
  unfold bind. destruct (c w) as [[a|e] w1]; [eauto | discriminate].
Qed.

Lemma bind_ok {A B} (c : M A) (k : A -> M B) w a w1 :
  c w = (Ok a, w1) -> bind c k w = k a w1.
Proof. unfold bind. now intros ->. Qed.

Lemma bind_assoc {A B C} (c : M A) (k : A -> M B) (k' : B -> M C) w :
  bind (bind c k) k' w = bind c (fun a => bind (k a) k') w.
Proof. unfold bind. destruct (c w) as [[a|e] w1]; reflexivity. Qed.

(** Unfolds the primitives in a hypothesis about a successful run and
    splits it along the calls that may raise. *)
Ltac unfold_prims H :=
  cbv [bind ret lift gets modify emit call] in H.

Ltac split_run H :=
  repeat match type of H with
  | context [match ?x with _ => _ end] =>
      lazymatch x with
      | context [match _ with _ => _ end] => fail
      | _ => let E := fresh "E" in destruct x eqn:E; try discriminate H
      end
  end.

(** ** Frames and trace shapes that hold whatever the outcome *)

Section Holds.
Context (R : relation World) `{!PreOrder R}.

Lemma holds_ret {A} (a : A) : holds R (ret a).
Proof. intros w. reflexivity. Qed.

Lemma holds_lift {A} (r : Res A) : holds R (lift r).
Proof. intros w. reflexivity. Qed.

Lemma holds_gets {A} (f : World -> A) : holds R (gets f).
Proof. intros w. reflexivity. Qed.

Lemma holds_bind {A B} (c : M A) (k : A -> M B) :
  holds R c -> (forall a, holds R (k a)) -> holds R (bind c k).
Proof.
  intros Hc Hk w. unfold bind. specialize (Hc w).
  destruct (c w) as [[a|e] w1]; simpl in *; [|done].
  etrans; [exact Hc | apply Hk].
Qed.

Lemma holds_modify (f : World -> World) :
  (forall w, R w (f w)) -> holds R (modify f).
Proof. intros Hf w. apply Hf. Qed.

End Holds.

Lemma extends_by_preorder P : PreOrder (extends_by P).
Proof.
  split.
  - intros w. exists []. now rewrite app_nil_r.
  - intros w1 w2 w3 (e1 & E1 & H1) (e2 & E2 & H2).
    exists (e1 ++ e2). rewrite E2, E1, <- app_assoc, forallb_app, H1, H2. done.
Qed.
#[local] Existing Instance extends_by_preorder.

Lemma holds_emit_extends (P : Event -> bool) ev :
  P ev = true -> holds (extends_by P) (emit ev).
Proof.
  intros HP w. exists [ev]. simpl. now rewrite HP.
Qed.

Lemma holds_modify_extends (P : Event -> bool) f :
  (forall w, trace (f w) = trace w) -> holds (extends_by P) (modify f).
Proof.
  intros Hf. apply holds_modify.
  intros w. exists []. now rewrite Hf, app_nil_r.
Qed.

(** ** numpy's sum *)

Lemma pairwise_sum_cut k a :
  pairwise_sum (S k) a =
  if (length a <? 8)%nat then sequential_sum a
  else if (length a <=? 128)%nat then block_sum a
  else (pairwise_sum k (take (length a / 2 - (length a / 2) mod 8) a)
        + pairwise_sum k (drop (length a / 2 - (length a / 2) mod 8) a))%float.
Proof. reflexivity. Qed.

(** The bound on the number of cuts is never reached: any bound from the
    length of the array on gives the same sum. *)
Lemma pairwise_sum_depth d d' a :
  length a <= d -> length a <= d' -> pairwise_sum d a = pairwise_sum d' a.
Proof.
  revert d' a. induction d as [|k IH]; intros d' a Hd Hd'.
  - destruct a; [|simpl in Hd; lia]. now destruct d'.
  - destruct d' as [|k'].
    + destruct a; [|simpl in Hd'; lia]. reflexivity.
    + rewrite !pairwise_sum_cut.
      destruct (length a <? 8)%nat eqn:E8; [reflexivity|].
      destruct (length a <=? 128)%nat eqn:E128; [reflexivity|].
      apply Nat.ltb_ge in E8. apply Nat.leb_gt in E128.
      pose proof (Nat.div_mod_eq (length a) 2) as Hq.
      pose proof (Nat.mod_upper_bound (length a) 2 ltac:(lia)) as Hr.
      pose proof (Nat.mod_upper_bound (length a / 2) 8 ltac:(lia)) as Hm.
      set (q := length a / 2) in *. set (m := q mod 8) in *.
      set (r := length a mod 2) in *.
      rewrite (IH k' (take _ a)), (IH k' (drop _ a)); try reflexivity.
      all: rewrite ?length_take, ?length_drop; lia.
Qed.

(** Fewer than eight elements: numpy's sum is the sum of the elements one
    after the other, added to [0.0]. *)
Lemma np_sum_short a :
  length a < 8 -> np_sum a = (0 + sequential_sum a)%float.
Proof.
  intros Hlen. unfold np_sum. destruct (length a) as [|n] eqn:E.
  - destruct a; [reflexivity | discriminate].
  - rewrite pairwise_sum_cut, E. apply Nat.ltb_lt in Hlen. now rewrite Hlen.
Qed.

(** ** The bookkeeping half of a loop body *)

Lemma np_setitem_ok a i v a' :
  np_setitem a i v = Ok a' -> i < length a /\ a' = <[i:=v]> a.
Proof. unfold np_setitem. case_decide; intros [= <-]; auto. Qed.

Lemma np_getitem_insert a i v x :
  i < length a -> np_getitem (<[i:=v]> a) i = Ok x -> x = v.
Proof.
  intros Hi. unfold np_getitem. rewrite list_lookup_insert_eq by done.
  now intros [= <-].
Qed.

Lemma dict_getitem_ok {V} (d : gmap string V) k v :
  dict_getitem d k = Ok v -> d !! k = Some v.
Proof. unfold dict_getitem. destruct (d !! k); now intros [= <-]. Qed.

Lemma record_batch_ok i o l w l' w' :
  record_batch i o l w = (Ok l', w') ->
  exists c d hd,
    out_loss o !! "combined" = Some c /\
    dice_score (out_preds o) (out_masks o) = Ok d /\
    hausdorff_distance (out_preds o) (out_masks o) = Ok hd /\
    i < length (loss (history l)) /\
    i < length (dice (history l)) /\
    i < length (hausdorff (history l)) /\
    history l' = written i (item c) d hd (history l) /\
    running_loss l' = (running_loss l + item c)%float /\
    running_dice l' = (running_dice l + d)%float /\
    running_hausdorff l' = (running_hausdorff l + hd)%float /\
    objects w' = objects w /\
    trace w' = trace w ++ record_events (shown_averages l' (i + 1)).
Proof.
  intros Hrun. unfold record_batch in Hrun. unfold_prims Hrun.
  split_run Hrun.
  apply dict_getitem_ok in E.
  apply np_setitem_ok in E0 as [? ->], E2 as [? ->], E4 as [? ->].
  apply np_getitem_insert in E5 as ->, E6 as ->, E7 as ->; try done.
  injection Hrun as <- <-. simpl.
  exists a, a1, a3. repeat split; try done.
  now rewrite <- !app_assoc.
Qed.

(** ** What a successful run does *)

Lemma has_scheduler_step_count w1 w2 n :
  step_count w2 = Nat.add n <$> step_count w1 -> has_scheduler w2 = has_scheduler w1.
Proof.
  unfold step_count, has_scheduler.
  destruct (scheduler w1), (scheduler w2); simpl; congruence.
Qed.

Lemma run_spec_weaken ws evs n evs' n' {A} (c : M A) :
  run_spec ws evs n c -> evs = evs' -> n = n' -> run_spec ws evs' n' c.
Proof. now intros ? <- <-. Qed.

Lemma run_spec_ext ws evs n {A} (c c' : M A) :
  (forall w, c w = c' w) -> run_spec ws evs n c -> run_spec ws evs n c'.
Proof. intros E Hc w a w' Hws Hrun. rewrite <- E in Hrun. eauto. Qed.

Lemma run_spec_ret ws {A} (a : A) : run_spec ws [] 0 (ret a).
Proof.
  intros w a' w' _ [= <- <-]. rewrite app_nil_r.
  repeat split. by destruct (step_count w).
Qed.

Lemma run_spec_lift ws {A} (r : Res A) : run_spec ws [] 0 (lift r).
Proof.
  intros w a' w' _ [= _ <-]. rewrite app_nil_r.
  repeat split. by destruct (step_count w).
Qed.

Lemma run_spec_gets ws {A} (f : World -> A) : run_spec ws [] 0 (gets f).
Proof.
  intros w a' w' _ [= _ <-]. rewrite app_nil_r.
  repeat split. by destruct (step_count w).
Qed.

Lemma run_spec_emit ws ev : run_spec ws [ev] 0 (emit ev).
Proof.
  intros w a' w' _ Hrun. injection Hrun as _ <-. repeat split.
  unfold step_count. simpl. by destruct (scheduler w).
Qed.

Lemma run_spec_modify ws (f : World -> World) :
  (forall w, trace (f w) = trace w) ->
  (forall w, scheduler (f w) = scheduler w) ->
  (forall w, disk (f w) = disk w) ->
  (forall w, training (model (f w)) = training (model w)) ->
  run_spec ws [] 0 (modify f).
Proof.
  intros Ht Hs Hd Hm w a' w' _ Hrun. injection Hrun as _ <-.
  rewrite Ht, app_nil_r.
  repeat split; auto. unfold step_count. rewrite Hs. by destruct (scheduler w).
Qed.

Lemma run_spec_bind ws e1 n1 e2 n2 {A B} (c : M A) (k : A -> M B) :
  run_spec ws e1 n1 c -> (forall a, run_spec ws e2 n2 (k a)) ->
  run_spec ws (e1 ++ e2) (n1 + n2) (bind c k).
Proof.
  intros Hc Hk w b w' Hws Hrun.
  apply bind_ok_inv in Hrun as (a & w1 & H1 & H2).
  apply Hc in H1 as (T1 & S1 & D1 & M1); [|done].
  apply Hk in H2 as (T2 & S2 & D2 & M2).
  2:{ rewrite <- Hws. eapply has_scheduler_step_count, S1. }
  rewrite T2, T1, S2, S1, D2, D1, M2, M1, <- app_assoc.
  repeat split. destruct (step_count w); simpl; f_equal. lia.
Qed.

Lemma run_spec_call ws ev {A} (r : Res A) : run_spec ws [ev] 0 (call ev r).
Proof.
  unfold call. eapply run_spec_weaken.
  - eapply run_spec_bind; [apply run_spec_emit | intros; apply run_spec_lift].
  - reflexivity.
  - reflexivity.
Qed.

(** Solves [run_spec] goals over sequences of primitives. *)
Ltac run_spec_step :=
  first
    [ apply run_spec_ret | apply run_spec_lift | apply run_spec_gets
    | apply run_spec_emit | apply run_spec_call
    | apply run_spec_modify; reflexivity
    | eapply run_spec_bind; [|intros] ].

Ltac run_spec_auto :=
  eapply run_spec_weaken; [repeat run_spec_step | reflexivity | reflexivity].

Lemma run_spec_model_call ws c imgs : run_spec ws [EvForward c] 0 (model_call c imgs).
Proof.
  unfold model_call.
  eapply run_spec_weaken with (evs := [EvForward c] ++ [] ++ []) (n := 0 + (0 + 0));
    [|reflexivity|reflexivity].
  eapply run_spec_bind; [apply run_spec_emit|intros _].
  eapply run_spec_bind; [apply run_spec_gets|intros m].
  destruct (training m); [|apply run_spec_lift].
  run_spec_auto.
Qed.

Lemma run_spec_zero_grad ws b : run_spec ws [EvZeroGrad b] 0 (optimizer_zero_grad b).
Proof. unfold optimizer_zero_grad. destruct b; run_spec_auto. Qed.

Lemma run_spec_scaler_scale ws t : run_spec ws [EvScale] 0 (scaler_scale_call t).
Proof. unfold scaler_scale_call. run_spec_auto. Qed.

Lemma run_spec_backward ws t : run_spec ws [EvBackward] 0 (tensor_backward t).
Proof. unfold tensor_backward. run_spec_auto. Qed.

Lemma run_spec_scaler_step ws : run_spec ws [EvScalerStep] 0 scaler_step_call.
Proof.
  unfold scaler_step_call.
  eapply run_spec_weaken with (evs := [EvScalerStep] ++ [] ++ [] ++ []) (n := 0 + (0 + (0 + 0)));
    [|reflexivity|reflexivity].
  eapply run_spec_bind; [apply run_spec_emit|intros _].
  eapply run_spec_bind; [apply run_spec_gets|intros w0].
  eapply run_spec_bind; [apply run_spec_lift|intros [[[s o] p] g]].
  apply run_spec_modify; reflexivity.
Qed.

Lemma run_spec_scaler_update ws : run_spec ws [EvScalerUpdate] 0 scaler_update_call.
Proof. unfold scaler_update_call. run_spec_auto. Qed.

Lemma run_spec_scheduler ws :
  run_spec ws (if ws then [EvSchedulerStep] else []) (if ws then 1 else 0)
    (sch <- gets scheduler ;;
     match sch with
     | Some s => scheduler_step s
     | None => ret tt
     end).
Proof.
  intros w a w' Hws Hrun. unfold has_scheduler in Hws.
  unfold scheduler_step in Hrun. unfold_prims Hrun.
  unfold step_count.
  destruct (scheduler w) as [s|] eqn:Es; subst ws.
  - split_run Hrun. injection Hrun as _ <-. simpl. done.
  - injection Hrun as _ <-. simpl. rewrite ?Es, app_nil_r. done.
Qed.

Lemma run_spec_train_update ws criterion device b :
  run_spec ws (train_update_events ws) (if ws then 1 else 0)
    (train_update criterion device b).
Proof.
  unfold train_update.
  eapply run_spec_weaken.
  - eapply run_spec_bind; [apply run_spec_call|intros imgs].
    eapply run_spec_bind; [apply run_spec_call|intros masks].
    eapply run_spec_bind; [apply run_spec_model_call|intros preds].
    eapply run_spec_bind; [apply run_spec_call|intros loss_t].
    eapply run_spec_bind; [apply run_spec_zero_grad|intros _].
    eapply run_spec_bind; [apply run_spec_lift|intros combined].
    eapply run_spec_bind; [apply run_spec_scaler_scale|intros scaled].
    eapply run_spec_bind; [apply run_spec_backward|intros _].
    eapply run_spec_bind; [apply run_spec_scaler_step|intros _].
    eapply run_spec_bind; [apply run_spec_scaler_update|intros _].
    eapply run_spec_ext; [intros w; apply bind_assoc|].
    eapply run_spec_bind; [apply run_spec_scheduler|intros _].
    apply run_spec_ret.
  - unfold train_update_events. simpl. now rewrite app_nil_r.
  - simpl. lia.
Qed.

Lemma run_spec_eval_forward ws criterion device b :
  run_spec ws eval_forward_events 0 (eval_forward criterion device b).
Proof.
  unfold eval_forward.
  eapply run_spec_weaken.
  - eapply run_spec_bind; [apply run_spec_call|intros imgs].
    eapply run_spec_bind; [apply run_spec_call|intros masks].
    eapply run_spec_bind; [apply run_spec_model_call|intros preds].
    eapply run_spec_bind; [apply run_spec_call|intros loss_t].
    apply run_spec_ret.
  - reflexivity.
  - reflexivity.
Qed.

(** ** The loops *)

Lemma train_loop_pass criterion device bs i l w :
  train_loop criterion device bs i l w = pass_loop (train_update criterion device) bs i l w.
Proof.
  revert i l w. induction bs as [|b rest IH]; intros i l w; [reflexivity|].
  simpl. unfold train_batch, bind at 1 3.
  destruct (bind _ _ w) as [[l1|e] w1]; [apply IH | reflexivity].
Qed.

Lemma eval_loop_pass criterion device bs i l w :
  eval_loop criterion device bs i l w = pass_loop (eval_forward criterion device) bs i l w.
Proof.
  revert i l w. induction bs as [|b rest IH]; intros i l w; [reflexivity|].
  simpl. unfold eval_batch, bind at 1 3.
  destruct (bind _ _ w) as [[l1|e] w1]; [apply IH | reflexivity].
Qed.

Lemma pass_loop_cons body b rest i l w l' w' :
  pass_loop body (b :: rest) i l w = (Ok l', w') ->
  exists o w1 l1 w2,
    body b w = (Ok o, w1) /\
    record_batch i o l w1 = (Ok l1, w2) /\
    pass_loop body rest (S i) l1 w2 = (Ok l', w').
Proof.
  simpl. intros Hrun.
  apply bind_ok_inv in Hrun as (l1 & w2 & Hb & Hrest).
  apply bind_ok_inv in Hb as (o & w1 & Hbody & Hrec).
  eauto 10.
Qed.

Lemma written_length i x d hd h n :
  history_length (written i x d hd h) n <-> history_length h n.
Proof. unfold history_length, written. simpl. now rewrite !length_insert. Qed.

(** A successful pass keeps the sizes of the history and writes only at
    indices from [i] on. *)
Lemma pass_loop_history body bs i l w l' w' :
  pass_loop body bs i l w = (Ok l', w') ->
  (forall n, history_length (history l) n -> history_length (history l') n) /\
  (forall j, j < i ->
     loss (history l') !! j = loss (history l) !! j /\
     dice (history l') !! j = dice (history l) !! j /\
     hausdorff (history l') !! j = hausdorff (history l) !! j).
Proof.
  revert i l w. induction bs as [|b rest IH]; intros i l w Hrun.
  - injection Hrun as <- <-. auto.
  - apply pass_loop_cons in Hrun as (o & w1 & l1 & w2 & Hbody & Hrec & Hrest).
    apply record_batch_ok in Hrec
      as (c & d & hd & _ & _ & _ & _ & _ & _ & Hh & _).
    apply IH in Hrest as [Hlen Hlow]. rewrite Hh in Hlen, Hlow. split.
    + intros n Hn. apply Hlen. now apply written_length.
    + intros j Hj. destruct (Hlow j) as (-> & -> & ->); [lia|].
      unfold written. simpl. rewrite !list_lookup_insert_ne by lia. done.
Qed.

(** The calls, the scheduler steps and the last display of a successful
    pass. *)
Lemma pass_loop_run body ws evs n :
  (forall b, run_spec ws evs n (body b)) ->
  forall bs i l w l' w',
    has_scheduler w = ws ->
    pass_loop body bs i l w = (Ok l', w') ->
    exists shown,
      length shown = length bs /\
      trace w' = trace w ++ pass_events evs shown /\
      step_count w' = Nat.add (n * length bs) <$> step_count w /\
      disk w' = disk w /\
      training (model w') = training (model w) /\
      (bs <> [] -> last shown = Some (shown_averages l' (i + length bs))).
Proof.
  intros Hbody bs. induction bs as [|b rest IH]; intros i l w l' w' Hws Hrun.
  - injection Hrun as <- <-. exists []. rewrite app_nil_r, Nat.mul_0_r.
    repeat split; try done. by destruct (step_count w).
  - apply pass_loop_cons in Hrun as (o & w1 & l1 & w2 & Hb & Hrec & Hrest).
    apply Hbody in Hb as (T1 & S1 & D1 & M1); [|done].
    apply record_batch_ok in Hrec
      as (c & d & hd & _ & _ & _ & _ & _ & _ & Hh & Hrl & Hrd & _ & Hobj & T2).
    assert (scheduler w2 = scheduler w1 /\ disk w2 = disk w1 /\ model w2 = model w1)
      as (S2 & D2 & M2).
    { unfold objects, set_trace in Hobj. now injection Hobj. }
    pose proof Hrest as Hrest'.
    apply IH in Hrest as (shown & Hlen & T3 & S3 & D3 & M3 & Hlast).
    2:{ unfold has_scheduler. rewrite S2. rewrite <- Hws.
        eapply has_scheduler_step_count, S1. }
    set (sd := shown_averages l1 (i + 1)) in *.
    exists (sd :: shown). simpl. rewrite Hlen. split; [done|].
    split; [|split; [|split; [|split]]].
    + rewrite T3, T2, T1. unfold pass_events. simpl. now rewrite <- !app_assoc.
    + rewrite S3. unfold step_count at 1. rewrite S2. fold (step_count w1). rewrite S1.
      destruct (step_count w); simpl; f_equal. lia.
    + congruence.
    + congruence.
    + intros _. destruct rest as [|b' rest'].
      * destruct shown; [|done]. injection Hrest' as <- <-. done.
      * rewrite last_cons, Hlast by done. simpl.
        now replace (i + S (S (length rest'))) with (S (i + S (length rest'))) by lia.
Qed.

(** The running sums are those at the start of the pass with the entries
    written by the pass added one after the other, in batch order. *)
Lemma pass_loop_sums body bs i l w l' w' :
  pass_loop body bs i l w = (Ok l', w') ->
  running_loss l' =
    fold_left PrimFloat.add (take (length bs) (drop i (loss (history l')))) (running_loss l) /\
  running_dice l' =
    fold_left PrimFloat.add (take (length bs) (drop i (dice (history l')))) (running_dice l).
Proof.
  revert i l w. induction bs as [|b rest IH]; intros i l w Hrun.
  - injection Hrun as <- <-. simpl. split; reflexivity.
  - apply pass_loop_cons in Hrun as (o & w1 & l1 & w2 & Hbody & Hrec & Hrest).
    apply record_batch_ok in Hrec
      as (c & d & hd & _ & _ & _ & Hi1 & Hi2 & _ & Hh & Hrl & Hrd & _).
    destruct (pass_loop_history _ _ _ _ _ _ _ Hrest) as [_ Hlow].
    destruct (Hlow i) as (Hl & Hd & _); [lia|].
    rewrite Hh in Hl, Hd. unfold written in Hl, Hd. simpl in Hl, Hd.
    rewrite list_lookup_insert_eq in Hl, Hd by done.
    apply IH in Hrest as [IHl IHd].
    simpl length. rewrite (drop_S _ _ _ Hl), (drop_S _ _ _ Hd).
    simpl take. simpl fold_left. rewrite IHl, IHd, Hrl, Hrd. split; reflexivity.
Qed.

(** Entry [i + k] of the final history holds the values computed by the
    iteration of batch [k], which ran in the world the first [k] batches
    left behind. *)
Lemma pass_loop_recorded body bs i l w l' w' :
  pass_loop body bs i l w = (Ok l', w') ->
  forall k b, bs !! k = Some b ->
    exists l_k w_k o w_k' x d hd,
      pass_loop body (take k bs) i l w = (Ok l_k, w_k) /\
      body b w_k = (Ok o, w_k') /\
      recorded o x d hd /\
      history_at (history l') (i + k) x d hd.
Proof.
  revert i l w. induction bs as [|b0 rest IH]; intros i l w Hrun k b Hk; [done|].
  apply pass_loop_cons in Hrun as (o & w1 & l1 & w2 & Hbody & Hrec & Hrest).
  destruct k as [|k]; simpl in Hk.
  - injection Hk as <-. exists l, w, o, w1.
    apply record_batch_ok in Hrec
      as (c & d & hd & Hc & Hd & Hhd & Hi1 & Hi2 & Hi3 & Hh & _).
    exists (item c), d, hd. split; [done|]. split; [done|].
    split; [repeat split; eauto|].
    destruct (pass_loop_history _ _ _ _ _ _ _ Hrest) as [_ Hlow].
    destruct (Hlow i) as (Hl & Hdd & Hhh); [lia|].
    unfold history_at. rewrite Nat.add_0_r, Hl, Hdd, Hhh, Hh.
    unfold written. simpl. rewrite !list_lookup_insert_eq by done. done.
  - destruct (IH _ _ _ Hrest k b Hk)
      as (l_k & w_k & o' & w_k' & x & d & hd & Hpre & Hb & Hrecd & Hat).
    exists l_k, w_k, o', w_k', x, d, hd. split; [|split; [done|split; [done|]]].
    + simpl. erewrite bind_ok; [exact Hpre|].
      erewrite bind_ok; [exact Hrec | exact Hbody].
    + now replace (i + S k) with (S i + k) by lia.
Qed.

(** ** The runners *)

Lemma init_locals_length n : history_length (history (init_locals n)) n.
Proof. unfold history_length, init_locals, np_zeros. simpl. now rewrite length_replicate. Qed.

(** A successful runner call is its entry calls followed by a successful
    pass over the batches. *)
Lemma runner_step_ok r criterion device dataloader w h w' :
  runner_step r criterion device dataloader w = (Ok h, w') ->
  exists w0 l',
    trace w0 = trace w ++ runner_enter_events r (length dataloader) /\
    scheduler w0 = scheduler w /\
    disk w0 = disk w /\
    (forall k,
       runner_prefix r criterion device dataloader k w =
       pass_loop (runner_body r criterion device) (take k dataloader) 0
         (init_locals (length dataloader)) w0) /\
    pass_loop (runner_body r criterion device) dataloader 0
      (init_locals (length dataloader)) w0 = (Ok l', w') /\
    h = history l'.
Proof.
  destruct r as [|desc]; simpl; intros Hrun.
  - unfold train_step in Hrun.
    set (w0 := set_model (set_training true (model w))
                 (set_trace (trace w ++ [EvTqdm "Training" (length dataloader); EvModelTrain]) w)).
    assert (forall {A} (k : M A),
      bind (emit (EvTqdm "Training" (length dataloader))) (fun _ => bind model_train (fun _ => k)) w
      = k w0) as Hstart.
    { intros A k. unfold model_train, w0. cbv [bind ret lift gets modify emit call].
      simpl. now rewrite <- app_assoc. }
    rewrite Hstart in Hrun.
    apply bind_ok_inv in Hrun as (l' & w1 & Hloop & Hret).
    injection Hret as <- <-. rewrite train_loop_pass in Hloop.
    exists w0, l'. repeat split; try done.
    intros k. rewrite Hstart. apply train_loop_pass.
  - unfold eval_step in Hrun.
    set (w0 := set_model (set_training false (model w))
                 (set_trace (trace w ++ [EvTqdm desc (length dataloader); EvModelEval]) w)).
    assert (forall {A} (k : M A),
      bind (emit (EvTqdm desc (length dataloader))) (fun _ => bind model_eval (fun _ => k)) w
      = k w0) as Hstart.
    { intros A k. unfold model_eval, w0. cbv [bind ret lift gets modify emit call].
      simpl. now rewrite <- app_assoc. }
    rewrite Hstart in Hrun.
    apply bind_ok_inv in Hrun as (l' & w1 & Hloop & Hret).
    injection Hret as <- <-. rewrite eval_loop_pass in Hloop.
    exists w0, l'. repeat split; try done.
    intros k. rewrite Hstart. apply eval_loop_pass.
Qed.

(** C1. A history returned by either runner has three sequences of
    exactly as many entries as the pass has batches, and entry [k] holds
    the loss, overlap and distance values computed from the outputs of
    batch [k] (in the world the first [k] batches left behind): every index
    has been written. *)
Theorem history_covers_every_batch r criterion device dataloader w h w' :
  runner_step r criterion device dataloader w = (Ok h, w') ->
  history_length h (length dataloader) /\
  forall k b, dataloader !! k = Some b ->
    exists l_k w_k o w_k' x d hd,
      runner_prefix r criterion device dataloader k w = (Ok l_k, w_k) /\
      runner_body r criterion device b w_k = (Ok o, w_k') /\
      recorded o x d hd /\
      history_at h k x d hd.
Proof.
  intros Hrun.
  apply runner_step_ok in Hrun as (w0 & l' & _ & _ & _ & Hpre & Hloop & ->).
  split.
  - eapply pass_loop_history; [exact Hloop | apply init_locals_length].
  - intros k b Hk.
    destruct (pass_loop_recorded _ _ _ _ _ _ _ Hloop k b Hk)
      as (l_k & w_k & o & w_k' & x & d & hd & Hp & Hb & Hrec & Hat).
    exists l_k, w_k, o, w_k', x, d, hd. rewrite Hpre. done.
Qed.

Lemma history_length_of_run r criterion device dataloader w h w' :
  runner_step r criterion device dataloader w = (Ok h, w') ->
  history_length h (length dataloader).
Proof.
  intros Hrun.
  apply runner_step_ok in Hrun as (w0 & l' & _ & _ & _ & _ & Hloop & ->).
  eapply pass_loop_history; [exact Hloop | apply init_locals_length].
Qed.

Lemma run_spec_runner_body r ws criterion device b :
  run_spec ws (runner_body_events r ws) (runner_body_steps r ws)
    (runner_body r criterion device b).
Proof.
  destruct r; [apply run_spec_train_update | apply run_spec_eval_forward].
Qed.

(** The calls and scheduler steps of a successful runner call, with the
    last value pair it displayed. *)
Lemma runner_step_run r criterion device dataloader w h w' :
  runner_step r criterion device dataloader w = (Ok h, w') ->
  exists shown l',
    h = history l' /\
    length shown = length dataloader /\
    trace w' = trace w ++ runner_enter_events r (length dataloader)
                 ++ pass_events (runner_body_events r (has_scheduler w)) shown /\
    step_count w' =
      Nat.add (runner_body_steps r (has_scheduler w) * length dataloader) <$> step_count w /\
    disk w' = disk w /\
    (dataloader <> [] -> last shown = Some (shown_averages l' (length dataloader))) /\
    running_loss l' = sequential_sum (loss h) /\
    running_dice l' = sequential_sum (dice h).
Proof.
  intros Hrun.
  apply runner_step_ok in Hrun as (w0 & l' & T0 & S0 & D0 & _ & Hloop & ->).
  assert (has_scheduler w0 = has_scheduler w) as Hws
    by (unfold has_scheduler; now rewrite S0).
  destruct (pass_loop_run _ _ _ _
              (fun b => run_spec_runner_body r (has_scheduler w) criterion device b)
              _ _ _ _ _ _ Hws Hloop)
    as (shown & Hlen & T1 & S1 & D1 & _ & Hlast).
  destruct (pass_loop_sums _ _ _ _ _ _ _ Hloop) as [Hsl Hsd].
  destruct (pass_loop_history _ _ _ _ _ _ _ Hloop) as [Hhl _].
  destruct (Hhl _ (init_locals_length _)) as (Ll & Ld & _).
  simpl in Hsl, Hsd. rewrite drop_0 in Hsl, Hsd.
  rewrite take_ge in Hsl by lia. rewrite take_ge in Hsd by lia.
  exists shown, l'. split; [done|]. split; [done|].
  split; [now rewrite T1, T0, <- app_assoc|].
  split; [|split; [congruence|split; [exact Hlast|]]].
  - rewrite S1. unfold step_count. now rewrite S0.
  - split; [rewrite Hsl | rewrite Hsd]; reflexivity.
Qed.

Lemma last_pass_events t evs shown sd :
  last shown = Some sd ->
  last (t ++ pass_events evs shown) = Some (EvSetPostfix sd.1 sd.2).
Proof.
  intros Hlast. apply last_Some in Hlast as [shown' ->].
  unfold pass_events. rewrite map_app, concat_app. simpl.
  rewrite app_nil_r. unfold record_events.
  change [EvDice; EvHausdorff; EvSetPostfix sd.1 sd.2]
    with ([EvDice; EvHausdorff] ++ [EvSetPostfix sd.1 sd.2]).
  rewrite !app_assoc. apply last_snoc.
Qed.

(** C7 (amended). For a non-empty pass of either runner, the running
    averages shown with the last batch are the recorded per-batch values
    added one after the other in batch order, from [0.0] and in float64,
    divided by the number of batches and shown with four decimals.  The
    mean that the orchestrator reports for the same history is numpy's: it
    is shown as the same string whenever numpy's sum of the history is the
    float that the one-after-the-other sum gives.  In a pass of fewer than
    8 batches numpy adds in that order too: its mean is the running sum,
    added to [0.0], over the number of batches.  From 8 batches on the two
    sums need not be the same float, and the two strings need not be the
    same. *)
Theorem final_display_is_running_average r criterion device dataloader w h w' :
  dataloader <> [] ->
  runner_step r criterion device dataloader w = (Ok h, w') ->
  let n := float_of_nat (length dataloader) in
  last (trace w') =
    Some (EvSetPostfix (format_f 4 (sequential_sum (loss h) / n)%float)
                       (format_f 4 (sequential_sum (dice h) / n)%float)) /\
  (np_sum (loss h) = sequential_sum (loss h) ->
   np_sum (dice h) = sequential_sum (dice h) ->
   last (trace w') =
     Some (EvSetPostfix (format_f 4 (np_mean (loss h))) (format_f 4 (np_mean (dice h))))) /\
  (length dataloader < 8 ->
   np_mean (loss h) = ((0 + sequential_sum (loss h)) / n)%float /\
   np_mean (dice h) = ((0 + sequential_sum (dice h)) / n)%float).
Proof.
  intros Hne Hrun n.
  destruct (history_length_of_run r criterion device dataloader w h w' Hrun) as (Ll & Ld & _).
  apply runner_step_run in Hrun
    as (shown & l' & -> & Hlen & T & _ & _ & Hlast & Hsl & Hsd).
  specialize (Hlast Hne).
  assert (last (trace w') =
            Some (EvSetPostfix (format_f 4 (sequential_sum (loss (history l')) / n)%float)
                               (format_f 4 (sequential_sum (dice (history l')) / n)%float)))
    as Hshown.
  { rewrite T, app_assoc. erewrite last_pass_events; [|exact Hlast].
    unfold shown_averages. simpl. now rewrite Hsl, Hsd. }
  split; [exact Hshown|]. split.
  - intros Hl Hd. rewrite Hshown. unfold np_mean. now rewrite Hl, Hd, Ll, Ld.
  - intros Hshort. unfold np_mean.
    rewrite !np_sum_short by (rewrite ?Ll, ?Ld; exact Hshort).
    now rewrite Ll, Ld.
Qed.

(** C10. On an empty batch sequence either runner returns, without
    raising, a history of three empty sequences; it has only created the
    progress bar and set the mode of the model: no forward pass, no loss or
    metric computation and no call on the optimizer, the scaler or the
    scheduler is made, and these objects and the parameters are as
    before. *)
Theorem empty_pass_returns_empty_history r criterion device w :
  exists w',
    runner_step r criterion device [] w =
      (Ok {| loss := []; dice := []; hausdorff := [] |}, w') /\
    trace w' = trace w ++ runner_enter_events r 0 /\
    forallb (fun e => negb (is_compute_event e || is_update_event e))
      (runner_enter_events r 0) = true /\
    parameters (model w') = parameters (model w) /\
    buffers (model w') = buffers (model w) /\
    grad (model w') = grad (model w) /\
    optimizer w' = optimizer w /\
    scaler w' = scaler w /\
    scheduler w' = scheduler w.
Proof.
  destruct r as [|desc]; eexists; (split; [reflexivity|]); simpl;
    rewrite <- app_assoc; repeat split.
Qed.

(** C4 (amended). Every batch of a successful [train_step] goes through
    the same calls in the same order: the two device transfers, the forward
    pass and the loss under autocast, the gradient reset, the scaling of
    the combined loss and the backward pass, the scaler's optimizer step,
    the scaler's update and only then the scheduler step, when there is a
    scheduler.  The gradient reset is [zero_grad(set_to_none=True)]: it
    leaves every gradient at [None] rather than zero-filled, so the
    backward pass that follows stores a fresh gradient. *)
Theorem train_step_operation_order criterion device dataloader w h w' :
  train_step criterion device dataloader w = (Ok h, w') ->
  (exists shown,
     length shown = length dataloader /\
     trace w' =
       trace w ++ [EvTqdm "Training" (length dataloader); EvModelTrain] ++
       pass_events
         ([EvTo; EvTo; EvForward ctx_train; EvCriterion ctx_train;
           EvZeroGrad true; EvScale; EvBackward; EvScalerStep; EvScalerUpdate]
          ++ (if has_scheduler w then [EvSchedulerStep] else []))
         shown) /\
  (forall w0, grad (model (optimizer_zero_grad true w0).2) = None) /\
  (forall w0 t w1,
     grad (model w0) = None ->
     tensor_backward t w0 = (Ok tt, w1) ->
     exists g, autograd t (parameters (model w0)) = Ok g /\ grad (model w1) = Some g).
Proof.
  intros Hrun. split; [|split].
  - apply (runner_step_run TrainRunner) in Hrun
      as (shown & l' & _ & Hlen & T & _).
    exists shown. split; [done|]. exact T.
  - reflexivity.
  - intros w0 t w1 Hg Hb. unfold tensor_backward in Hb. unfold_prims Hb.
    simpl in Hb. rewrite Hg in Hb. split_run Hb. injection Hb as <-. eauto.
Qed.

Lemma filter_shape_pass_events (shown shown' : list (string * string)) :
  length shown = length shown' ->
  List.filter (fun e => negb (is_scheduler_event e))
    (shape <$> pass_events (train_update_events true) shown) =
  shape <$> pass_events (train_update_events false) shown'.
Proof.
  revert shown'. induction shown as [|sd shown IH]; intros [|sd' shown'] Hlen;
    try discriminate; [reflexivity|].
  injection Hlen as Hlen. unfold pass_events in *. simpl.
  do 12 f_equal. now apply IH.
Qed.

Lemma count_scheduler_pass_events ws (shown : list (string * string)) :
  length (List.filter is_scheduler_event (pass_events (train_update_events ws) shown)) =
  if ws then length shown else 0.
Proof.
  induction shown as [|sd shown IH]; [now destruct ws|].
  unfold pass_events in *. destruct ws; simpl in *; now rewrite IH.
Qed.

(** C3. A successful [train_step] over [n] batches with a scheduler calls
    [scheduler.step()] exactly [n] times and leaves the scheduler's step
    counter [n] higher.  Without a scheduler there is none afterwards
    either and no scheduler step is made; such a pass makes the calls of a
    pass with a scheduler, in the same order, the scheduler steps apart. *)
Theorem scheduler_steps_once_per_batch criterion device dataloader w h w' :
  train_step criterion device dataloader w = (Ok h, w') ->
  step_count w' =
    Nat.add (if has_scheduler w then length dataloader else 0) <$> step_count w /\
  exists evs,
    trace w' = trace w ++ evs /\
    length (List.filter is_scheduler_event evs) =
      (if has_scheduler w then length dataloader else 0) /\
    forall w0 h0 w0',
      has_scheduler w = true ->
      has_scheduler w0 = false ->
      train_step criterion device dataloader w0 = (Ok h0, w0') ->
      exists evs0,
        trace w0' = trace w0 ++ evs0 /\
        step_count w0' = None /\
        shape <$> evs0 =
          List.filter (fun e => negb (is_scheduler_event e)) (shape <$> evs).
Proof.
  intros Hrun.
  apply (runner_step_run TrainRunner) in Hrun
    as (shown & l' & _ & Hlen & T & S & _).
  simpl in T, S. split.
  - rewrite S. now destruct (has_scheduler w); simpl; rewrite ?Nat.add_0_r.
  - eexists. split; [exact T|]. split.
    + simpl. rewrite count_scheduler_pass_events, Hlen. done.
    + intros w0 h0 w0' Hws Hws0 Hrun0.
      apply (runner_step_run TrainRunner) in Hrun0
        as (shown0 & l0 & _ & Hlen0 & T0 & S0 & _).
      simpl in T0, S0. rewrite Hws0 in T0. rewrite Hws.
      eexists. split; [exact T0|]. split.
      * rewrite S0. unfold has_scheduler, step_count in *.
        now destruct (scheduler w0).
      * simpl. f_equal. f_equal. symmetry.
        apply filter_shape_pass_events. congruence.
Qed.

(** ** Frames of the evaluation pass *)

Lemma eval_mode_frame_preorder : PreOrder eval_mode_frame.
Proof.
  split.
  - intros w _. reflexivity.
  - intros w1 w2 w3 H12 H23 Ht. specialize (H12 Ht).
    rewrite <- H12. apply H23.
    assert (model w2 = model w1) as -> by (unfold objects, set_trace in H12; congruence).
    exact Ht.
Qed.
#[local] Existing Instance eval_mode_frame_preorder.

Lemma holds_call R `{!PreOrder R} ev {A} (r : Res A) :
  holds R (emit ev) -> holds R (call ev r).
Proof.
  intros He. unfold call. apply holds_bind; [done|done|intros; by apply holds_lift].
Qed.

Lemma holds_emit_eval_mode ev : holds eval_mode_frame (emit ev).
Proof. intros w _. reflexivity. Qed.

(** Close [holds] goals over sequences of primitives. *)
Ltac holds_eval_mode :=
  repeat first
    [ apply holds_ret; apply _
    | apply holds_lift; apply _
    | apply holds_gets; apply _
    | apply holds_emit_eval_mode
    | apply holds_call; [apply _|]
    | apply holds_bind; [apply _| |intros] ].

Ltac holds_extends :=
  repeat first
    [ apply holds_ret; apply _
    | apply holds_lift; apply _
    | apply holds_gets; apply _
    | apply holds_emit_extends; reflexivity
    | apply holds_modify_extends; reflexivity
    | apply holds_call; [apply _|]
    | apply holds_bind; [apply _| |intros] ].

Lemma model_call_eval_mode c imgs : holds eval_mode_frame (model_call c imgs).
Proof.
  intros w Ht. unfold model_call. cbv [bind ret lift gets modify emit]. simpl.
  rewrite Ht. reflexivity.
Qed.

Lemma record_batch_eval_mode i o l : holds eval_mode_frame (record_batch i o l).
Proof. unfold record_batch. holds_eval_mode. Qed.

Lemma eval_forward_eval_mode criterion device b :
  holds eval_mode_frame (eval_forward criterion device b).
Proof.
  unfold eval_forward.
  apply holds_bind; [apply _| holds_eval_mode |intros imgs].
  apply holds_bind; [apply _| holds_eval_mode |intros masks].
  apply holds_bind; [apply _| apply model_call_eval_mode |intros preds].
  holds_eval_mode.
Qed.

Lemma eval_loop_eval_mode criterion device bs i l :
  holds eval_mode_frame (eval_loop criterion device bs i l).
Proof.
  revert i l. induction bs as [|b rest IH]; intros i l; simpl.
  - apply holds_ret; apply _.
  - apply holds_bind; [apply _| |intros l'; apply IH].
    unfold eval_batch.
    apply holds_bind; [apply _| apply eval_forward_eval_mode |intros o].
    apply record_batch_eval_mode.
Qed.

Lemma model_call_not_update c imgs : holds (extends_by not_update) (model_call c imgs).
Proof.
  unfold model_call.
  apply holds_bind; [apply _| holds_extends |intros _].
  apply holds_bind; [apply _| holds_extends |intros m].
  destruct (training m); holds_extends.
Qed.

Lemma eval_loop_not_update criterion device bs i l :
  holds (extends_by not_update) (eval_loop criterion device bs i l).
Proof.
  revert i l. induction bs as [|b rest IH]; intros i l; simpl.
  - apply holds_ret; apply _.
  - apply holds_bind; [apply _| |intros l'; apply IH].
    unfold eval_batch, eval_forward, record_batch.
    apply holds_bind; [apply _| |intros o; holds_extends].
    apply holds_bind; [apply _| holds_extends |intros imgs].
    apply holds_bind; [apply _| holds_extends |intros masks].
    apply holds_bind; [apply _| apply model_call_not_update |intros preds].
    holds_extends.
Qed.

(** What [eval_step] does to the world, whatever its outcome: the mode
    flag is set, the trace grows, nothing else changes. *)
Lemma eval_step_frame criterion device dataloader desc w :
  let w' := (eval_step criterion device dataloader desc w).2 in
  model w' = set_training false (model w) /\
  optimizer w' = optimizer w /\
  scaler w' = scaler w /\
  scheduler w' = scheduler w /\
  disk w' = disk w /\
  exists evs,
    trace w' = trace w ++ EvTqdm desc (length dataloader) :: EvModelEval :: evs /\
    forallb not_update evs = true.
Proof.
  set (w0 := set_model (set_training false (model w))
               (set_trace (trace w ++ [EvTqdm desc (length dataloader); EvModelEval]) w)).
  set (c := eval_loop criterion device dataloader 0 (init_locals (length dataloader))).
  assert (eval_step criterion device dataloader desc w
          = bind c (fun l => ret (history l)) w0) as ->.
  { unfold eval_step, model_eval, w0. cbv [bind ret lift gets modify emit]. simpl.
    now rewrite <- app_assoc. }
  assert ((bind c (fun l => ret (history l)) w0).2 = (c w0).2) as ->.
  { unfold bind, ret. now destruct (c w0) as [[l|e] w1]. }
  pose proof (eval_loop_eval_mode criterion device dataloader 0
                (init_locals (length dataloader)) w0 eq_refl) as Hobj.
  destruct (eval_loop_not_update criterion device dataloader 0
              (init_locals (length dataloader)) w0) as (evs & T & Hevs).
  fold c in Hobj, T. simpl.
  unfold objects, set_trace in Hobj. injection Hobj as -> -> -> -> ->.
  repeat split. exists evs. rewrite T. simpl. now rewrite <- app_assoc.
Qed.

(** C2. Whatever the model, the batches, the loss function and the
    device, and whether it returns or raises, [eval_step] leaves the
    parameters of the model exactly as they were (its buffers and gradients
    too: only the mode flag is set), leaves the optimizer, the scaler and
    the scheduler untouched and makes no call on any of them. *)
Theorem eval_step_leaves_parameters criterion device dataloader desc w :
  let w' := (eval_step criterion device dataloader desc w).2 in
  parameters (model w') = parameters (model w) /\
  buffers (model w') = buffers (model w) /\
  grad (model w') = grad (model w) /\
  optimizer w' = optimizer w /\
  scaler w' = scaler w /\
  scheduler w' = scheduler w /\
  exists evs,
    trace w' = trace w ++ evs /\
    forallb (fun e => negb (is_update_event e)) evs = true.
Proof.
  destruct (eval_step_frame criterion device dataloader desc w)
    as (Hm & Ho & Hs & Hsch & _ & evs & T & Hevs).
  simpl. rewrite Hm, Ho, Hs, Hsch. repeat split.
  exists (EvTqdm desc (length dataloader) :: EvModelEval :: evs). split; [exact T|].
  exact Hevs.
Qed.

(** ** Two evaluation passes side by side *)

Lemma agree_ret R {A} (a : A) : agree R (ret a) (ret a).
Proof. intros w1 w2 HR. done. Qed.

Lemma agree_lift R {A} (r : Res A) : agree R (lift r) (lift r).
Proof. intros w1 w2 HR. done. Qed.

Lemma agree_bind R {A B} (c1 c2 : M A) (k1 k2 : A -> M B) :
  agree R c1 c2 -> (forall a, agree R (k1 a) (k2 a)) ->
  agree R (bind c1 k1) (bind c2 k2).
Proof.
  intros Hc Hk w1 w2 HR. unfold bind. destruct (Hc w1 w2 HR) as [Hr Hw].
  destruct (c1 w1) as [[a1|e1] w1'], (c2 w2) as [[a2|e2] w2']; simpl in *;
    try discriminate.
  - injection Hr as ->. now apply Hk.
  - injection Hr as ->. done.
Qed.

Lemma agree_emit t1 t2 ev : agree (trace_twin t1 t2) (emit ev) (emit ev).
Proof.
  intros w1 w2 (Hm & evs & T1 & T2). split; [done|]. split; [exact Hm|].
  exists (evs ++ [ev]). simpl. now rewrite T1, T2, !app_assoc.
Qed.

Lemma agree_call t1 t2 ev {A} (r : Res A) :
  agree (trace_twin t1 t2) (call ev r) (call ev r).
Proof.
  unfold call. apply agree_bind; [apply agree_emit | intros; apply agree_lift].
Qed.

Lemma agree_gets_model t1 t2 : agree (trace_twin t1 t2) (gets model) (gets model).
Proof.
  intros w1 w2 HR. pose proof HR as [Hm _].
  split; [simpl; now rewrite Hm | exact HR].
Qed.

Lemma agree_modify_model t1 t2 (g : NNModule -> NNModule) :
  agree (trace_twin t1 t2)
    (modify (fun w => set_model (g (model w)) w))
    (modify (fun w => set_model (g (model w)) w)).
Proof.
  intros w1 w2 (Hm & evs & T1 & T2). split; [done|]. split.
  - simpl. now rewrite Hm.
  - exists evs. done.
Qed.

Ltac agree_auto :=
  repeat first
    [ apply agree_ret | apply agree_lift | apply agree_emit | apply agree_call
    | apply agree_gets_model | apply agree_modify_model
    | apply agree_bind; [|intros] ].

Lemma agree_model_call t1 t2 c imgs :
  agree (trace_twin t1 t2) (model_call c imgs) (model_call c imgs).
Proof.
  unfold model_call.
  apply agree_bind; [apply agree_emit|intros _].
  apply agree_bind; [apply agree_gets_model|intros m].
  destruct (training m); agree_auto.
Qed.

Lemma agree_eval_loop t1 t2 criterion device bs i l :
  agree (trace_twin t1 t2)
    (eval_loop criterion device bs i l) (eval_loop criterion device bs i l).
Proof.
  revert i l. induction bs as [|b rest IH]; intros i l; simpl.
  - apply agree_ret.
  - apply agree_bind; [|intros l'; apply IH].
    unfold eval_batch, eval_forward, record_batch.
    apply agree_bind; [|intros o; agree_auto].
    apply agree_bind; [apply agree_call|intros imgs].
    apply agree_bind; [apply agree_call|intros masks].
    apply agree_bind; [apply agree_model_call|intros preds].
    agree_auto.
Qed.

(** Two calls of [eval_step] on worlds whose models differ at most in the
    mode flag return the same result and go through the same calls, the
    label of the progress bar apart. *)
Lemma eval_step_twin criterion device dataloader desc1 desc2 w1 w2 :
  set_training false (model w1) = set_training false (model w2) ->
  let r1 := eval_step criterion device dataloader desc1 w1 in
  let r2 := eval_step criterion device dataloader desc2 w2 in
  r1.1 = r2.1 /\
  exists evs,
    trace r1.2 = trace w1 ++ EvTqdm desc1 (length dataloader) :: evs /\
    trace r2.2 = trace w2 ++ EvTqdm desc2 (length dataloader) :: evs.
Proof.
  intros Hm.
  set (n := length dataloader).
  set (c := eval_loop criterion device dataloader 0 (init_locals n)).
  set (wa := fun desc w => set_model (set_training false (model w))
               (set_trace (trace w ++ [EvTqdm desc n; EvModelEval]) w)).
  assert (forall desc w,
    eval_step criterion device dataloader desc w
    = bind c (fun l => ret (history l)) (wa desc w)) as Hstep.
  { intros desc w. unfold eval_step, model_eval, wa. cbv [bind ret lift gets modify emit].
    simpl. now rewrite <- app_assoc. }
  simpl. rewrite !Hstep.
  assert (trace_twin (trace w1 ++ [EvTqdm desc1 n]) (trace w2 ++ [EvTqdm desc2 n])
            (wa desc1 w1) (wa desc2 w2)) as HR.
  { split; [exact Hm|]. exists [EvModelEval]. simpl. now rewrite <- !app_assoc. }
  assert (agree (trace_twin (trace w1 ++ [EvTqdm desc1 n]) (trace w2 ++ [EvTqdm desc2 n]))
            (bind c (fun l => ret (history l))) (bind c (fun l => ret (history l)))) as Hag.
  { apply agree_bind; [apply agree_eval_loop | intros; apply agree_ret]. }
  destruct (Hag _ _ HR) as (Hres & _ & evs & T1 & T2).
  split; [exact Hres|]. exists evs. rewrite T1, T2, <- !app_assoc. done.
Qed.

(** C6. Calling [eval_step] a second time, right after a first call and
    with the same arguments (the same model, the same sequence of batches),
    gives the result of the first call, so the same three history
    sequences, and leaves the objects as the first call left them. *)
Theorem eval_step_twice_same_history criterion device dataloader desc w :
  let first := eval_step criterion device dataloader desc w in
  let second := eval_step criterion device dataloader desc first.2 in
  second.1 = first.1 /\ objects second.2 = objects first.2.
Proof.
  simpl.
  destruct (eval_step_frame criterion device dataloader desc w)
    as (M1 & O1 & S1 & C1 & D1 & _).
  destruct (eval_step_frame criterion device dataloader desc
              (eval_step criterion device dataloader desc w).2)
    as (M2 & O2 & S2 & C2 & D2 & _).
  simpl in *. split.
  - apply (eval_step_twin criterion device dataloader desc desc
             (eval_step criterion device dataloader desc w).2 w).
    rewrite M1. reflexivity.
  - rewrite M1 in M2. change (set_training false (set_training false (model w)))
      with (set_training false (model w)) in M2. rewrite <- M1 in M2.
    destruct (eval_step criterion device dataloader desc
                (eval_step criterion device dataloader desc w).2).2,
             (eval_step criterion device dataloader desc w).2.
    unfold objects, set_trace. simpl in *. congruence.
Qed.

(** C9. The label passed to [eval_step] does not enter the computation:
    two calls that differ only in the label give the same result and leave
    the same objects behind; their traces differ only in the label shown
    on the progress bar. *)
Theorem eval_step_label_irrelevant criterion device dataloader desc1 desc2 w :
  let r1 := eval_step criterion device dataloader desc1 w in
  let r2 := eval_step criterion device dataloader desc2 w in
  r1.1 = r2.1 /\
  objects r1.2 = objects r2.2 /\
  exists evs,
    trace r1.2 = trace w ++ EvTqdm desc1 (length dataloader) :: evs /\
    trace r2.2 = trace w ++ EvTqdm desc2 (length dataloader) :: evs.
Proof.
  simpl.
  destruct (eval_step_twin criterion device dataloader desc1 desc2 w w eq_refl)
    as [Hres Htr].
  split; [exact Hres|]. split; [|exact Htr].
  destruct (eval_step_frame criterion device dataloader desc1 w)
    as (M1 & O1 & S1 & C1 & D1 & _).
  destruct (eval_step_frame criterion device dataloader desc2 w)
    as (M2 & O2 & S2 & C2 & D2 & _).
  simpl in *.
  destruct (eval_step criterion device dataloader desc1 w).2,
           (eval_step criterion device dataloader desc2 w).2.
  unfold objects, set_trace. simpl in *. congruence.
Qed.

(** ** The orchestrator *)

Lemma count_summaries_app e1 e2 :
  count_summaries (e1 ++ e2) = count_summaries e1 + count_summaries e2.
Proof. unfold count_summaries. now rewrite List.filter_app, length_app. Qed.

Lemma track_weaken n n' {A} (c : M A) : track n c -> n = n' -> track n' c.
Proof. now intros ? <-. Qed.

Lemma track_ret {A} (a : A) : track 0 (ret a).
Proof. intros w. split; [done|]. exists []. now rewrite app_nil_r. Qed.

Lemma track_lift {A} (r : Res A) : track 0 (lift r).
Proof. intros w. split; [done|]. exists []. now rewrite app_nil_r. Qed.

Lemma track_gets {A} (f : World -> A) : track 0 (gets f).
Proof. intros w. split; [done|]. exists []. now rewrite app_nil_r. Qed.

Lemma track_modify (f : World -> World) :
  (forall w, disk (f w) = disk w) -> (forall w, trace (f w) = trace w) ->
  track 0 (modify f).
Proof.
  intros Hd Ht w. split; [apply Hd|]. exists []. simpl. now rewrite Ht, app_nil_r.
Qed.

Lemma track_emit ev :
  not_disk ev = true -> is_epoch_summary ev = false -> track 0 (emit ev).
Proof.
  intros Hev Hs w. split; [done|]. exists [ev]. simpl. rewrite Hev.
  repeat split. intros _ _. unfold count_summaries. simpl. now rewrite Hs.
Qed.

Lemma track_emit_summary ev :
  not_disk ev = true -> is_epoch_summary ev = true -> track 1 (emit ev).
Proof.
  intros Hev Hs w. split; [done|]. exists [ev]. simpl. rewrite Hev.
  repeat split. intros _ _. unfold count_summaries. simpl. now rewrite Hs.
Qed.

Lemma track_bind n1 n2 {A B} (c : M A) (k : A -> M B) :
  track n1 c -> (forall a, track n2 (k a)) -> track (n1 + n2) (bind c k).
Proof.
  intros Hc Hk w. unfold bind. destruct (Hc w) as (D1 & e1 & T1 & P1 & N1).
  destruct (c w) as [[a|e] w1]; simpl in *.
  - destruct (Hk a w1) as (D2 & e2 & T2 & P2 & N2).
    split; [congruence|]. exists (e1 ++ e2).
    rewrite T2, T1, <- app_assoc, forallb_app, P1, P2. repeat split.
    intros b Hb. rewrite count_summaries_app, (N1 a eq_refl), (N2 b Hb). done.
  - split; [done|]. exists e1. repeat split; done.
Qed.

Lemma track_call ev {A} (r : Res A) :
  not_disk ev = true -> is_epoch_summary ev = false -> track 0 (call ev r).
Proof.
  intros Hev Hs. unfold call. eapply track_weaken.
  - eapply track_bind; [now apply track_emit | intros; apply track_lift].
  - reflexivity.
Qed.

Ltac track_step :=
  first
    [ apply track_ret | apply track_lift | apply track_gets
    | apply track_emit; reflexivity
    | apply track_emit_summary; reflexivity
    | apply track_call; reflexivity
    | apply track_modify; reflexivity
    | eapply track_bind; [|intros] ].

Ltac track_auto := eapply track_weaken; [repeat track_step | reflexivity].

Lemma track_model_call c imgs : track 0 (model_call c imgs).
Proof.
  unfold model_call. eapply track_weaken.
  - eapply track_bind; [apply track_emit; reflexivity|intros _].
    eapply track_bind; [apply track_gets|intros m].
    instantiate (1 := 0). destruct (training m); track_auto.
  - reflexivity.
Qed.

Lemma track_scaler_step : track 0 scaler_step_call.
Proof.
  unfold scaler_step_call. eapply track_weaken.
  - eapply track_bind; [apply track_emit; reflexivity|intros _].
    eapply track_bind; [apply track_gets|intros w0].
    eapply track_bind; [apply track_lift|intros [[[s o] p] g]].
    apply track_modify; reflexivity.
  - reflexivity.
Qed.

Lemma track_record_batch i o l : track 0 (record_batch i o l).
Proof. unfold record_batch. track_auto. Qed.

Lemma track_train_update criterion device b : track 0 (train_update criterion device b).
Proof.
  unfold train_update. eapply track_weaken.
  - eapply track_bind; [apply track_call; reflexivity|intros imgs].
    eapply track_bind; [apply track_call; reflexivity|intros masks].
    eapply track_bind; [apply track_model_call|intros preds].
    eapply track_bind; [apply track_call; reflexivity|intros loss_t].
    eapply track_bind; [unfold optimizer_zero_grad; track_auto|intros _].
    eapply track_bind; [apply track_lift|intros combined].
    eapply track_bind; [unfold scaler_scale_call; track_auto|intros scaled].
    eapply track_bind; [unfold tensor_backward; track_auto|intros _].
    eapply track_bind; [apply track_scaler_step|intros _].
    eapply track_bind; [unfold scaler_update_call; track_auto|intros _].
    eapply track_bind; [apply track_gets|intros sch].
    eapply track_bind; [|intros _; apply track_ret].
    instantiate (1 := 0). destruct sch as [s|]; [|apply track_ret].
    unfold scheduler_step. track_auto.
  - reflexivity.
Qed.

Lemma track_eval_forward criterion device b : track 0 (eval_forward criterion device b).
Proof.
  unfold eval_forward. eapply track_weaken.
  - eapply track_bind; [apply track_call; reflexivity|intros imgs].
    eapply track_bind; [apply track_call; reflexivity|intros masks].
    eapply track_bind; [apply track_model_call|intros preds].
    eapply track_bind; [apply track_call; reflexivity|intros loss_t].
    apply track_ret.
  - reflexivity.
Qed.

Lemma track_train_loop criterion device bs i l :
  track 0 (train_loop criterion device bs i l).
Proof.
  revert i l. induction bs as [|b rest IH]; intros i l; simpl; [apply track_ret|].
  eapply track_weaken.
  - eapply track_bind; [|intros l'; apply IH].
    unfold train_batch.
    eapply track_bind; [apply track_train_update | intros; apply track_record_batch].
  - reflexivity.
Qed.

Lemma track_eval_loop criterion device bs i l :
  track 0 (eval_loop criterion device bs i l).
Proof.
  revert i l. induction bs as [|b rest IH]; intros i l; simpl; [apply track_ret|].
  eapply track_weaken.
  - eapply track_bind; [|intros l'; apply IH].
    unfold eval_batch.
    eapply track_bind; [apply track_eval_forward | intros; apply track_record_batch].
  - reflexivity.
Qed.

Lemma track_train_step criterion device dataloader :
  track 0 (train_step criterion device dataloader).
Proof.
  unfold train_step, model_train. eapply track_weaken.
  - eapply track_bind; [apply track_emit; reflexivity|intros _].
    eapply track_bind; [track_auto|intros _].
    eapply track_bind; [apply track_train_loop|intros; apply track_ret].
  - reflexivity.
Qed.

Lemma track_eval_step criterion device dataloader desc :
  track 0 (eval_step criterion device dataloader desc).
Proof.
  unfold eval_step, model_eval. eapply track_weaken.
  - eapply track_bind; [apply track_emit; reflexivity|intros _].
    eapply track_bind; [track_auto|intros _].
    eapply track_bind; [apply track_eval_loop|intros; apply track_ret].
  - reflexivity.
Qed.

Lemma track_train_epoch criterion train_loader val_loader epoch :
  track 1 (train_epoch criterion train_loader val_loader epoch).
Proof.
  unfold train_epoch, get_last_lr. eapply track_weaken.
  - eapply track_bind; [apply track_emit; reflexivity|intros _].
    eapply track_bind; [apply track_train_step|intros train_hist].
    eapply track_bind; [apply track_eval_step|intros val_hist].
    eapply track_bind; [|intros lr; repeat track_step].
    eapply track_bind; [apply track_gets|intros sch].
    instantiate (1 := 0). destruct sch; [apply track_ret | apply track_lift].
  - reflexivity.
Qed.

Lemma track_train_epochs criterion train_loader val_loader epochs :
  track (length epochs) (train_epochs criterion train_loader val_loader epochs).
Proof.
  induction epochs as [|epoch rest IH]; simpl; [apply track_ret|].
  eapply track_weaken.
  - eapply track_bind; [apply track_train_epoch | intros _; apply IH].
  - reflexivity.
Qed.

Lemma not_disk_not_save evs :
  forallb not_disk evs = true -> forallb not_save evs = true.
Proof.
  induction evs as [|e evs IH]; [done|]. simpl.
  intros [He Hevs]%andb_prop. rewrite IH by done.
  destruct e; try done.
Qed.

Lemma not_disk_no_save evs :
  forallb not_disk evs = true -> List.filter is_save_event evs = [].
Proof.
  induction evs as [|e evs IH]; [done|]. simpl.
  intros [He Hevs]%andb_prop. rewrite IH by done.
  destruct e; try done.
Qed.

Lemma saves_at_end_weaken n n' {A} (c : M A) :
  saves_at_end n c -> n = n' -> saves_at_end n' c.
Proof. now intros ? <-. Qed.

Lemma saves_at_end_bind n1 n2 {A B} (c : M A) (k : A -> M B) :
  track n1 c -> (forall a, saves_at_end n2 (k a)) -> saves_at_end (n1 + n2) (bind c k).
Proof.
  intros Hc Hk w. unfold bind. destruct (Hc w) as (D1 & e1 & T1 & P1 & N1).
  destruct (c w) as [[a|e] w1]; simpl in *.
  - specialize (Hk a w1). destruct (k a w1) as [[b|e] w2].
    + destruct Hk as (pre & tl & td & T2 & P2 & N2 & D2).
      exists (e1 ++ pre), tl, td. rewrite T2, T1, <- !app_assoc.
      split; [done|]. rewrite forallb_app, P1, P2. split; [done|].
      rewrite count_summaries_app, (N1 a eq_refl), N2. split; [done|].
      now rewrite D2, D1.
    + destruct Hk as [(D2 & e2 & T2 & P2) | ((pre & T2 & P2) & Hdir & Hfile & Hrest)].
      * left. split; [congruence|].
        exists (e1 ++ e2). rewrite T2, T1, <- app_assoc. split; [done|].
        now rewrite forallb_app, (not_disk_not_save _ P1), P2.
      * right. rewrite D1 in Hfile, Hrest. split; [|done].
        exists (e1 ++ pre). rewrite T2, T1, <- !app_assoc. split; [done|].
        now rewrite forallb_app, (not_disk_not_save _ P1), P2.
  - left. split; [done|]. exists e1. split; [done|]. now apply not_disk_not_save.
Qed.

Lemma dirname_weights : dirname "../models/UNet.pth" = "../models".
Proof. reflexivity. Qed.

(** [torch.save] on a file system where the directory exists: a save
    that returns has written the state dict; one that raises has left the
    file system as it was or the file truncated. *)
Lemma torch_save_run w :
  disk w !! "../models" = Some Dir ->
  let w1 := set_trace (trace w ++ [EvSave "../models/UNet.pth"]) w in
  match torch_save "../models/UNet.pth" w with
  | (Ok _, w') =>
      w' = set_disk (<["../models/UNet.pth" :=
                         File (parameters (model w)) (buffers (model w))]> (disk w)) w1
  | (Raise _, w') =>
      w' = w1 \/ w' = set_disk (<["../models/UNet.pth" := Truncated]> (disk w)) w1
  end.
Proof.
  intros Hdir. unfold torch_save. cbv [bind ret lift gets modify emit]. simpl.
  rewrite dirname_weights, Hdir.
  destruct (disk w !! "../models/UNet.pth") as [[|p0 b0|]|] eqn:Et; simpl;
    try (left; done);
    (destruct (os_open_write "../models/UNet.pth") as [[]|e0]; simpl; [|left; done]);
    destruct (serialize (parameters (model w)) (buffers (model w))) as [[]|e]; simpl;
    try (right; done); done.
Qed.

(** Lines 144-147: the test summary, [os.makedirs] and [torch.save]. *)
Lemma saves_at_end_save test_loss test_dice :
  saves_at_end 0
    (emit (EvPrint (PTest test_loss test_dice)) ;;
     os_makedirs "../models" true ;;
     torch_save "../models/UNet.pth").
Proof.
  intros w. unfold bind at 1. unfold emit at 1, modify at 1.
  set (w1 := set_trace (trace w ++ [EvPrint (PTest test_loss test_dice)]) w).
  assert (forall w2,
            os_makedirs "../models" true w1 = (Ok tt, w2) ->
            disk w2 !! "../models" = Some Dir /\
            trace w2 = trace w ++ [EvPrint (PTest test_loss test_dice);
                                   EvMakedirs "../models" true] /\
            disk w2 = <["../models" := Dir]> (disk w) /\
            model w2 = model w) as Hmk.
  { intros w2. unfold os_makedirs. cbv [bind ret lift gets modify emit]. simpl.
    destruct (disk w !! "../models") as [[|p b|]|] eqn:Ed; simpl;
      [| | |destruct (os_mkdir "../models") as [[]|e0]; simpl];
      intros [= <-]; simpl; rewrite <- ?app_assoc.
    - repeat split; try done. now rewrite insert_id.
    - repeat split; try done. apply lookup_insert_eq. }
  assert (forall e w2,
            os_makedirs "../models" true w1 = (Raise e, w2) ->
            disk w2 = disk w /\
            trace w2 = trace w ++ [EvPrint (PTest test_loss test_dice);
                                   EvMakedirs "../models" true]) as Hmkfail.
  { intros e w2. unfold os_makedirs. cbv [bind ret lift gets modify emit]. simpl.
    destruct (disk w !! "../models") as [[|p b|]|] eqn:Ed; simpl;
      [| | |destruct (os_mkdir "../models") as [[]|e0]; simpl];
      intros [= <- <-]; simpl; rewrite <- ?app_assoc; done. }
  unfold bind.
  destruct (os_makedirs "../models" true w1) as [[[]|e] w2] eqn:Emk.
  - destruct (Hmk w2 eq_refl) as (Hdir & T2 & D2 & M2).
    pose proof (torch_save_run w2 Hdir) as Hsave. simpl in Hsave.
    destruct (torch_save "../models/UNet.pth" w2) as [[[]|e] w3].
    + subst w3. exists [], test_loss, test_dice. simpl.
      rewrite T2, <- !app_assoc, D2, M2. done.
    + right. split; [|split; [|split]].
      * exists [EvPrint (PTest test_loss test_dice); EvMakedirs "../models" true].
        split; [|done].
        destruct Hsave as [-> | ->]; simpl; now rewrite T2, <- !app_assoc.
      * destruct Hsave as [-> | ->]; simpl; [done|].
        now rewrite lookup_insert_ne.
      * destruct Hsave as [-> | ->]; simpl.
        -- left. rewrite D2. now rewrite lookup_insert_ne.
        -- right. apply lookup_insert_eq.
      * intros path H1 H2.
        destruct Hsave as [-> | ->]; simpl; rewrite D2;
          now rewrite !lookup_insert_ne by done.
  - destruct (Hmkfail e w2 eq_refl) as (D2 & T2). left. split; [done|].
    eexists. split; [exact T2|done].
Qed.

Lemma saves_at_end_test_and_save criterion test_loader :
  saves_at_end 0 (test_and_save criterion test_loader).
Proof.
  unfold test_and_save. eapply saves_at_end_weaken.
  - eapply saves_at_end_bind; [apply track_eval_step | intros test_hist].
    apply saves_at_end_save.
  - reflexivity.
Qed.

Lemma saves_at_end_train : saves_at_end N_EPOCHS train.
Proof.
  unfold train. eapply saves_at_end_weaken.
  - eapply saves_at_end_bind; [apply track_emit; reflexivity | intros _].
    eapply saves_at_end_bind; [apply track_emit; reflexivity | intros _].
    eapply saves_at_end_bind; [apply track_call; reflexivity | intros train_set].
    eapply saves_at_end_bind; [apply track_call; reflexivity | intros val_set].
    eapply saves_at_end_bind; [apply track_call; reflexivity | intros test_set].
    eapply saves_at_end_bind; [apply track_call; reflexivity | intros pb].
    eapply saves_at_end_bind; [apply track_call; reflexivity | intros pb'].
    eapply saves_at_end_bind; [apply track_modify; reflexivity | intros _].
    eapply saves_at_end_bind; [apply track_emit; reflexivity | intros _].
    eapply saves_at_end_bind; [apply track_modify; reflexivity | intros _].
    eapply saves_at_end_bind; [apply track_gets | intros o].
    eapply saves_at_end_bind; [apply track_call; reflexivity | intros so].
    eapply saves_at_end_bind; [apply track_modify; reflexivity | intros _].
    eapply saves_at_end_bind; [apply track_emit; reflexivity | intros _].
    eapply saves_at_end_bind; [apply track_modify; reflexivity | intros _].
    eapply saves_at_end_bind; [apply track_train_epochs | intros _].
    eapply saves_at_end_bind; [apply track_emit; reflexivity | intros _].
    apply saves_at_end_test_and_save.
  - simpl. rewrite length_seq. lia.
Qed.

(** C5. A run of [train] that completes has written the model to
    [../models/UNet.pth] exactly once, as its last action: all [N_EPOCHS]
    epoch summaries, the test pass and its summary come before, the
    directory [../models] exists afterwards (it is created when absent)
    and the file holds the final parameters; nothing touched the file
    system earlier.  A run that raises has written no parameters: every
    saved state dict on the file system was there before.  Such a run has
    either made no save and left the file system as it was, or it failed
    in the save itself, its last call: then the directory exists and the
    file is as it was or truncated. *)
Theorem train_saves_once_at_the_end w :
  match train w with
  | (Ok _, w') =>
      exists pre test_loss test_dice,
        let evs := pre ++ [EvPrint (PTest test_loss test_dice);
                           EvMakedirs "../models" true;
                           EvSave "../models/UNet.pth"] in
        trace w' = trace w ++ evs /\
        length (List.filter is_save_event evs) = 1 /\
        forallb (fun e => negb (is_disk_event e)) pre = true /\
        count_summaries pre = N_EPOCHS /\
        disk w' !! "../models" = Some Dir /\
        disk w' !! "../models/UNet.pth" =
          Some (File (parameters (model w')) (buffers (model w'))) /\
        forall path, path <> "../models" -> path <> "../models/UNet.pth" ->
          disk w' !! path = disk w !! path
  | (Raise _, w') =>
      (forall path p b,
         disk w' !! path = Some (File p b) -> disk w !! path = Some (File p b)) /\
      (forall path, path <> "../models" -> path <> "../models/UNet.pth" ->
         disk w' !! path = disk w !! path) /\
      exists evs,
        trace w' = trace w ++ evs /\
        ((forallb (fun e => negb (is_save_event e)) evs = true /\ disk w' = disk w) \/
         (exists pre,
            evs = pre ++ [EvSave "../models/UNet.pth"] /\
            forallb (fun e => negb (is_save_event e)) pre = true /\
            disk w' !! "../models" = Some Dir /\
            (disk w' !! "../models/UNet.pth" = disk w !! "../models/UNet.pth" \/
             disk w' !! "../models/UNet.pth" = Some Truncated)))
  end.
Proof.
  pose proof (saves_at_end_train w) as Hrun.
  destruct (train w) as [[[]|e] w'].
  - destruct Hrun as (pre & tl & td & T & P & N & D).
    exists pre, tl, td. simpl. split; [exact T|].
    split; [rewrite List.filter_app, (not_disk_no_save _ P); reflexivity|].
    split; [exact P|]. split; [exact N|]. rewrite D.
    split; [|split].
    + rewrite lookup_insert_ne by done. apply lookup_insert_eq.
    + apply lookup_insert_eq.
    + intros path H1 H2. now rewrite !lookup_insert_ne by done.
  - destruct Hrun as [(D & evs & T & P) | ((pre & T & P) & Hdir & Hfile & Hrest)].
    + split; [now rewrite D|]. split; [now rewrite D|].
      exists evs. split; [exact T|]. left. done.
    + split; [|split; [exact Hrest|]].
      * intros path p b Hp.
        destruct (decide (path = "../models")) as [->|H1]; [congruence|].
        destruct (decide (path = "../models/UNet.pth")) as [->|H2].
        -- destruct Hfile as [<- | Ht]; [done | congruence].
        -- now rewrite <- Hrest.
      * eexists. split; [exact T|]. right. exists pre. done.
Qed.

(** C8 (amended). The loss (and overlap) that a completed epoch reports
    for a split is numpy's float64 mean of the history its runner returned:
    numpy's sum of the recorded per-batch values divided by the number of
    batches of the pass, printed with four decimals.  Recorded losses 0.1,
    0.2, 0.3 give the mean 0.20000000000000004, which is printed as
    0.2000; an empty history gives NaN, printed as nan. *)
Theorem epoch_report_is_float64_mean criterion train_loader val_loader epoch w w' :
  train_epoch criterion train_loader val_loader epoch w = (Ok tt, w') ->
  (exists w0 train_hist w1 val_hist w2 lr,
     w0 = set_trace (trace w ++ [EvPrint (PEpochHeader (epoch + 1) N_EPOCHS)]) w /\
     train_step criterion DEVICE (loader_batches train_loader epoch) w0
       = (Ok train_hist, w1) /\
     eval_step criterion DEVICE (loader_batches val_loader epoch) "Validating" w1
       = (Ok val_hist, w2) /\
     let reported (a : list scalar) (batches : list Batch) :=
       format_f 4 (np_sum a / float_of_nat (length batches))%float in
     trace w' = trace w2 ++
       [EvPrint (PLr lr);
        EvPrint (PTrain (reported (loss train_hist) (loader_batches train_loader epoch))
                        (reported (dice train_hist) (loader_batches train_loader epoch)));
        EvPrint (PVal (reported (loss val_hist) (loader_batches val_loader epoch))
                      (reported (dice val_hist) (loader_batches val_loader epoch)))]) /\
  np_mean [0.1; 0.2; 0.3]%float = 0.20000000000000004%float /\
  format_f 4 (np_mean [0.1; 0.2; 0.3]%float) = "0.2000" /\
  format_f 4 (np_mean []) = "nan".
Proof.
  intros Hrun. split; [|repeat split; vm_compute; reflexivity].
  unfold train_epoch in Hrun.
  apply bind_ok_inv in Hrun as ([] & w0 & Hhead & Hrun).
  injection Hhead as <-.
  apply bind_ok_inv in Hrun as (train_hist & w1 & Htrain & Hrun).
  apply bind_ok_inv in Hrun as (val_hist & w2 & Hval & Hrun).
  apply bind_ok_inv in Hrun as (lr & w3 & Hlr & Hrun).
  assert (w3 = w2) as ->.
  { unfold get_last_lr in Hlr. unfold_prims Hlr. split_run Hlr. now injection Hlr. }
  unfold_prims Hrun. injection Hrun as <-.
  destruct (history_length_of_run TrainRunner _ _ _ _ _ _ Htrain) as (Tl & Td & _).
  destruct (history_length_of_run (EvalRunner "Validating") _ _ _ _ _ _ Hval)
    as (Vl & Vd & _).
  eexists _, train_hist, w1, val_hist, w2, (format_f 6 lr).
  split; [reflexivity|]. split; [exact Htrain|]. split; [exact Hval|].
  simpl. unfold np_mean. rewrite Tl, Td, Vl, Vd, <- !app_assoc. reflexivity.
Qed.

(** ** Raising runs *)


Lemma pass_loop_app body bs1 bs2 i l w :
  pass_loop body (bs1 ++ bs2) i l w =
  bind (pass_loop body bs1 i l) (fun l1 => pass_loop body bs2 (i + length bs1) l1) w.
Proof.
  revert i l w. induction bs1 as [|b rest IH]; intros i l w.
  - simpl. unfold bind, ret. now rewrite Nat.add_0_r.
  - simpl. set (c := bind (body b) _). rewrite bind_assoc.
    unfold bind at 1 2. destruct (c w) as [[l1|e] w1]; [|reflexivity].
    rewrite IH. now replace (S i + length rest) with (i + S (length rest)) by lia.
Qed.


Lemma runner_step_unfold r criterion device dataloader w :
  runner_step r criterion device dataloader w =
  bind (pass_loop (runner_body r criterion device) dataloader 0
          (init_locals (length dataloader)))
       (fun l => ret (history l))
       (runner_enter_world r (length dataloader) w).
Proof.
  destruct r as [|desc]; simpl.
  - unfold train_step, model_train, runner_enter_world.
    cbv [bind ret lift gets modify emit]. simpl. rewrite <- app_assoc. simpl.
    rewrite train_loop_pass. reflexivity.
  - unfold eval_step, model_eval, runner_enter_world.
    cbv [bind ret lift gets modify emit]. simpl. rewrite <- app_assoc. simpl.
    rewrite eval_loop_pass. reflexivity.
Qed.





Lemma np_setitem_in_range a i v : i < length a -> np_setitem a i v = Ok (<[i:=v]> a).
Proof. intros Hi. unfold np_setitem. now case_decide. Qed.

Lemma np_getitem_written a i v : i < length a -> np_getitem (<[i:=v]> a) i = Ok v.
Proof. intros Hi. unfold np_getitem. now rewrite list_lookup_insert_eq. Qed.

(** With the index in range the bookkeeping raises only what the lookup of
    "combined" or a metric raised. *)
Lemma record_batch_raise n i o l w e w' :
  history_length (history l) n ->
  i < n ->
  record_batch i o l w = (Raise e, w') ->
  batch_values o = Raise e.
Proof.
  intros (Hl & Hd & Hh) Hi Hrun.
  unfold record_batch in Hrun. unfold_prims Hrun. unfold batch_values.
  destruct (dict_getitem (out_loss o) "combined") as [c|e0]; [|now injection Hrun as <-].
  rewrite np_setitem_in_range in Hrun by lia.
  destruct (dice_score (out_preds o) (out_masks o)) as [d|e0]; [|now injection Hrun as <-].
  rewrite np_setitem_in_range in Hrun by lia.
  destruct (hausdorff_distance (out_preds o) (out_masks o)) as [hd|e0];
    [|now injection Hrun as <-].
  rewrite np_setitem_in_range in Hrun by lia.
  rewrite !np_getitem_written in Hrun by lia.
  discriminate.
Qed.

(** ** The progress display, batch by batch *)

(** The pair shown with batch [k] of a pass is made of the running sums
    at that point over the number of batches processed. *)
Lemma pass_loop_shown body ws evs n :
  (forall b, run_spec ws evs n (body b)) ->
  forall bs i l w l' w',
    has_scheduler w = ws ->
    pass_loop body bs i l w = (Ok l', w') ->
    exists shown,
      length shown = length bs /\
      trace w' = trace w ++ pass_events evs shown /\
      forall k sd, shown !! k = Some sd ->
        sd.1 = format_f 4
                 (fold_left PrimFloat.add (take (S k) (drop i (loss (history l'))))
                    (running_loss l) / float_of_nat (i + k + 1))%float /\
        sd.2 = format_f 4
                 (fold_left PrimFloat.add (take (S k) (drop i (dice (history l'))))
                    (running_dice l) / float_of_nat (i + k + 1))%float.
Proof.
  intros Hbody bs. induction bs as [|b rest IH]; intros i l w l' w' Hws Hrun.
  - injection Hrun as <- <-. exists []. rewrite app_nil_r. repeat split; done.
  - apply pass_loop_cons in Hrun as (o & w1 & l1 & w2 & Hb & Hrec & Hrest).
    apply Hbody in Hb as (T1 & S1 & _); [|done].
    apply record_batch_ok in Hrec
      as (c & d & hd & _ & _ & _ & Hi1 & Hi2 & _ & Hh & Hrl & Hrd & _ & Hobj & T2).
    assert (scheduler w2 = scheduler w1) as S2.
    { unfold objects, set_trace in Hobj. now injection Hobj. }
    destruct (pass_loop_history _ _ _ _ _ _ _ Hrest) as [_ Hlow].
    destruct (Hlow i) as (Hl & Hd & _); [lia|].
    rewrite Hh in Hl, Hd. unfold written in Hl, Hd. simpl in Hl, Hd.
    rewrite list_lookup_insert_eq in Hl, Hd by done.
    apply IH in Hrest as (shown & Hlen & T3 & Hshown).
    2:{ unfold has_scheduler. rewrite S2. rewrite <- Hws.
        eapply has_scheduler_step_count, S1. }
    exists (shown_averages l1 (i + 1) :: shown). simpl. rewrite Hlen.
    split; [done|]. split.
    + rewrite T3, T2, T1. unfold pass_events. simpl. now rewrite <- !app_assoc.
    + intros k sd Hk. rewrite (drop_S _ _ _ Hl), (drop_S _ _ _ Hd).
      destruct k as [|k]; simpl in Hk.
      * injection Hk as <-. simpl. now rewrite Hrl, Hrd, Nat.add_0_r.
      * destruct (Hshown k sd Hk) as [E1 E2]. rewrite E1, E2, Hrl, Hrd.
        replace (S i + k + 1) with (i + S k + 1) by lia. done.
Qed.

(** X3. In a completed pass of either runner the averages shown on the
    progress bar with batch [k] are, for the loss and for the overlap, the
    first [k + 1] entries of the returned sequence added one after the
    other from [0.0] in float64, divided by [k + 1] and shown with four
    decimals: the display of every batch is a function of the history
    alone. *)
Theorem every_display_is_running_average r criterion device dataloader w h w' :
  runner_step r criterion device dataloader w = (Ok h, w') ->
  exists shown,
    length shown = length dataloader /\
    trace w' = trace w ++ runner_enter_events r (length dataloader)
                 ++ pass_events (runner_body_events r (has_scheduler w)) shown /\
    forall k sd, shown !! k = Some sd ->
      sd.1 = format_f 4 (sequential_sum (take (S k) (loss h)) / float_of_nat (S k))%float /\
      sd.2 = format_f 4 (sequential_sum (take (S k) (dice h)) / float_of_nat (S k))%float.
Proof.
  intros Hrun.
  apply runner_step_ok in Hrun as (w0 & l' & T0 & S0 & _ & _ & Hloop & ->).
  assert (has_scheduler w0 = has_scheduler w) as Hws
    by (unfold has_scheduler; now rewrite S0).
  destruct (pass_loop_shown _ _ _ _
              (fun b => run_spec_runner_body r (has_scheduler w) criterion device b)
              _ _ _ _ _ _ Hws Hloop)
    as (shown & Hlen & T1 & Hshown).
  exists shown. split; [done|]. split; [now rewrite T1, T0, <- app_assoc|].
  intros k sd Hk. destruct (Hshown k sd Hk) as [E1 E2].
  rewrite E1, E2, !drop_0. simpl (0 + k + 1).
  replace (k + 1) with (S k) by lia. done.
Qed.

(** ** The mode of the model *)

Lemma keeps_mode_preorder : PreOrder keeps_mode.
Proof.
  split; [intros w; reflexivity|].
  intros w1 w2 w3 H12 H23. unfold keeps_mode in *. congruence.
Qed.
#[local] Existing Instance keeps_mode_preorder.

Lemma holds_modify_mode (f : World -> World) :
  (forall w, training (model (f w)) = training (model w)) ->
  holds keeps_mode (modify f).
Proof. intros Hf w. apply Hf. Qed.

Ltac holds_mode :=
  repeat first
    [ apply holds_ret; apply _
    | apply holds_lift; apply _
    | apply holds_gets; apply _
    | apply holds_modify_mode; reflexivity
    | apply holds_call; [apply _|]
    | apply holds_bind; [apply _| |intros] ].

Lemma model_call_keeps_mode c imgs : holds keeps_mode (model_call c imgs).
Proof.
  unfold model_call.
  apply holds_bind; [apply _| holds_mode |intros _].
  apply holds_bind; [apply _| holds_mode |intros m].
  destruct (training m); holds_mode.
Qed.

Lemma record_batch_keeps_mode i o l : holds keeps_mode (record_batch i o l).
Proof. unfold record_batch. holds_mode. Qed.

Lemma train_update_keeps_mode criterion device b :
  holds keeps_mode (train_update criterion device b).
Proof.
  unfold train_update.
  apply holds_bind; [apply _| holds_mode |intros imgs].
  apply holds_bind; [apply _| holds_mode |intros masks].
  apply holds_bind; [apply _| apply model_call_keeps_mode |intros preds].
  apply holds_bind; [apply _| holds_mode |intros loss_t].
  apply holds_bind; [apply _| unfold optimizer_zero_grad; holds_mode |intros _].
  apply holds_bind; [apply _| holds_mode |intros combined].
  apply holds_bind; [apply _| unfold scaler_scale_call; holds_mode |intros scaled].
  apply holds_bind; [apply _| unfold tensor_backward; holds_mode |intros _].
  apply holds_bind; [apply _| |intros _].
  { unfold scaler_step_call.
    apply holds_bind; [apply _| holds_mode |intros _].
    apply holds_bind; [apply _| holds_mode |intros w0].
    apply holds_bind; [apply _| holds_mode |intros [[[s o] p] g]].
    holds_mode. }
  apply holds_bind; [apply _| unfold scaler_update_call; holds_mode |intros _].
  apply holds_bind; [apply _| holds_mode |intros sch].
  apply holds_bind; [apply _| |intros _; holds_mode].
  destruct sch as [s|]; [unfold scheduler_step|]; holds_mode.
Qed.

Lemma train_loop_keeps_mode criterion device bs i l :
  holds keeps_mode (train_loop criterion device bs i l).
Proof.
  revert i l. induction bs as [|b rest IH]; intros i l; simpl.
  - apply holds_ret; apply _.
  - apply holds_bind; [apply _| |intros l'; apply IH].
    unfold train_batch.
    apply holds_bind; [apply _| apply train_update_keeps_mode |intros o].
    apply record_batch_keeps_mode.
Qed.


(** ** The evaluation pass as a batch-wise map *)

Lemma eval_forward_result criterion device b w :
  training (model w) = false ->
  (eval_forward criterion device b w).1 =
    eval_outputs criterion device (parameters (model w)) (buffers (model w)) b.
Proof.
  intros Ht. unfold eval_forward, model_call, eval_outputs.
  cbv [bind ret lift gets modify emit call]. simpl. rewrite Ht.
  destruct (tensor_to b.1 device) as [imgs|e]; [|done].
  destruct (tensor_to b.2 device) as [masks|e]; [|done]. simpl.
  destruct (forward_eval _ _ _ imgs) as [preds|e]; [|done].
  destruct (criterion ctx_eval preds masks) as [loss_t|e]; done.
Qed.

Lemma recorded_batch_values o x d hd :
  recorded o x d hd -> batch_values o = Ok (x, d, hd).
Proof.
  intros ((c & Hc & ->) & Hd & Hhd). unfold batch_values, dict_getitem.
  now rewrite Hc, Hd, Hhd.
Qed.

Lemma objects_model (w w' : World) : objects w' = objects w -> model w' = model w.
Proof. unfold objects, set_trace. now intros [= -> _]. Qed.

(** One iteration of the evaluation loop, whatever its outcome. *)
Lemma eval_iteration_result criterion device n i b l w :
  training (model w) = false ->
  history_length (history l) n ->
  i < n ->
  let f := eval_values criterion device (parameters (model w)) (buffers (model w)) in
  match bind (eval_forward criterion device b) (fun o => record_batch i o l) w with
  | (Ok l1, w1) =>
      exists x d hd,
        f b = Ok (x, d, hd) /\
        history l1 = written i x d hd (history l) /\
        model w1 = model w
  | (Raise e, _) => f b = Raise e
  end.
Proof.
  intros Ht Hn Hi f. unfold f, eval_values.
  rewrite <- (eval_forward_result _ _ _ _ Ht).
  pose proof (eval_forward_eval_mode criterion device b w Ht) as Hobj.
  unfold bind. destruct (eval_forward criterion device b w) as [[o|e] w1]; simpl in *; [|done].
  destruct (record_batch i o l w1) as [[l1|e] w2] eqn:Hrec.
  - apply record_batch_ok in Hrec
      as (c & d & hd & Hc & Hd & Hhd & _ & _ & _ & Hh & _ & _ & _ & Hobj2 & _).
    exists (item c), d, hd. split; [|split; [exact Hh|]].
    + apply recorded_batch_values. repeat split; eauto.
    + apply objects_model in Hobj, Hobj2. congruence.
  - eapply record_batch_raise; eauto.
Qed.

Lemma overwrite_cons i x xs a :
  i < length a ->
  overwrite (S i) xs (<[i:=x]> a) = overwrite i (x :: xs) a.
Proof.
  intros Hi. unfold overwrite.
  replace (i + length (x :: xs)) with (S i + length xs) by (simpl; lia).
  rewrite (take_S_r (<[i:=x]> a) i x) by now apply list_lookup_insert_eq.
  rewrite take_insert_ge by lia.
  rewrite drop_insert_lt by lia.
  now rewrite <- app_assoc.
Qed.

Lemma overwrite_all xs a : length xs = length a -> overwrite 0 xs a = xs.
Proof.
  intros Hlen. unfold overwrite. simpl. rewrite Hlen, drop_all. apply app_nil_r.
Qed.

Lemma res_map_length {A B} (f : A -> Res B) l bs :
  res_map f l = Ok bs -> length bs = length l.
Proof.
  revert bs. induction l as [|a rest IH]; intros bs; simpl.
  - now intros [= <-].
  - destruct (f a); [|done]. destruct (res_map f rest); [|done].
    intros [= <-]. simpl. f_equal. now apply IH.
Qed.

(** The evaluation loop against the batch-wise map. *)
Lemma eval_loop_result criterion device n bs i l w :
  training (model w) = false ->
  history_length (history l) n ->
  i + length bs <= n ->
  let f := eval_values criterion device (parameters (model w)) (buffers (model w)) in
  match (pass_loop (eval_forward criterion device) bs i l w).1 with
  | Ok l' =>
      exists vals,
        res_map f bs = Ok vals /\
        loss (history l') = overwrite i ((fun v => v.1.1) <$> vals) (loss (history l)) /\
        dice (history l') = overwrite i ((fun v => v.1.2) <$> vals) (dice (history l)) /\
        hausdorff (history l') = overwrite i ((fun v => v.2) <$> vals) (hausdorff (history l))
  | Raise e => res_map f bs = Raise e
  end.
Proof.
  revert i l w. induction bs as [|b rest IH]; intros i l w Ht Hn Hi f.
  - simpl. exists []. unfold overwrite. simpl. rewrite Nat.add_0_r, !take_drop. done.
  - simpl in Hi. simpl pass_loop. unfold bind at 1.
    pose proof (eval_iteration_result criterion device n i b l w Ht Hn ltac:(lia)) as Hit.
    simpl in Hit. fold f in Hit.
    destruct (bind (eval_forward criterion device b) _ w) as [[l1|e] w1]; simpl.
    + destruct Hit as (x & d & hd & Hf & Hh & Hm).
      assert (history_length (history l1) n) as Hn1
        by (rewrite Hh; now apply written_length).
      pose proof (IH (S i) l1 w1 ltac:(now rewrite Hm) Hn1 ltac:(lia)) as Hrest.
      simpl in Hrest. rewrite Hm in Hrest. fold f in Hrest. rewrite Hf.
      destruct (pass_loop _ rest (S i) l1 w1).1 as [l'|e].
      * destruct Hrest as (vals & -> & Hl & Hd & Hhd).
        exists ((x, d, hd) :: vals). split; [done|].
        destruct Hn as (Ln & Dn & Hdn).
        rewrite Hl, Hd, Hhd, Hh. unfold written. simpl.
        rewrite !overwrite_cons by lia. done.
      * now rewrite Hrest.
    + now rewrite Hit.
Qed.

Lemma eval_step_result criterion device dataloader desc w :
  (eval_step criterion device dataloader desc w).1 =
    eval_history criterion device (parameters (model w)) (buffers (model w)) dataloader.
Proof.
  change (eval_step criterion device dataloader desc w)
    with (runner_step (EvalRunner desc) criterion device dataloader w).
  rewrite runner_step_unfold. simpl runner_body.
  set (w0 := runner_enter_world (EvalRunner desc) (length dataloader) w).
  pose proof (eval_loop_result criterion device (length dataloader) dataloader 0
                (init_locals (length dataloader)) w0 eq_refl
                (init_locals_length _) ltac:(lia)) as Hloop.
  simpl in Hloop. unfold eval_history.
  unfold bind. destruct (pass_loop _ _ _ _ w0) as [[l'|e] w1]; simpl in *.
  - destruct Hloop as (vals & Hmap & Hl & Hd & Hhd). rewrite Hmap. f_equal.
    apply res_map_length in Hmap.
    rewrite !overwrite_all in Hl, Hd, Hhd
      by (unfold np_zeros; now rewrite length_fmap, length_replicate).
    destruct (history l') as [hl hd hh]. unfold history_of_values.
    simpl in *. congruence.
  - now rewrite Hloop.
Qed.

Lemma res_map_lookup {A B} (f : A -> Res B) l bs k a :
  res_map f l = Ok bs -> l !! k = Some a ->
  exists b, f a = Ok b /\ bs !! k = Some b.
Proof.
  revert bs k. induction l as [|a0 rest IH]; intros bs k Hmap Hk; [done|].
  simpl in Hmap. destruct (f a0) as [b0|] eqn:Hf; [|done].
  destruct (res_map f rest) as [bs'|] eqn:Hrest; [|done].
  injection Hmap as <-. destruct k as [|k]; simpl in *.
  - injection Hk as <-. eauto.
  - eapply IH; eauto.
Qed.

Lemma res_map_app {A B} (f : A -> Res B) l1 l2 bs1 bs2 :
  res_map f l1 = Ok bs1 -> res_map f l2 = Ok bs2 ->
  res_map f (l1 ++ l2) = Ok (bs1 ++ bs2).
Proof.
  revert bs1. induction l1 as [|a rest IH]; intros bs1; simpl.
  - now intros [= <-].
  - destruct (f a); [|done]. destruct (res_map f rest); [|done].
    intros [= <-] H2. now rewrite (IH _ eq_refl H2).
Qed.

(** X5. The result of [eval_step] is a function of the parameters and
    buffers of the model and of the batches alone: the per-batch values
    (loss, overlap, distance), each computed from its own batch, in the
    order of the batches, or the exception of the first batch that fails.
    Entry [k] of a returned history is the value of batch [k] on its own;
    the trace, the optimizer, the scaler, the scheduler and the earlier
    batches do not enter it. *)
Theorem eval_step_is_batchwise_map criterion device dataloader desc w :
  let p := parameters (model w) in
  let bf := buffers (model w) in
  (eval_step criterion device dataloader desc w).1 =
    eval_history criterion device p bf dataloader /\
  forall h k b,
    (eval_step criterion device dataloader desc w).1 = Ok h ->
    dataloader !! k = Some b ->
    exists x d hd,
      eval_values criterion device p bf b = Ok (x, d, hd) /\
      history_at h k x d hd.
Proof.
  simpl. split; [apply eval_step_result|].
  intros h k b Hrun Hk. rewrite eval_step_result in Hrun. unfold eval_history in Hrun.
  destruct (res_map _ dataloader) as [vals|] eqn:Hmap; [|done].
  injection Hrun as <-.
  destruct (res_map_lookup _ _ _ _ _ Hmap Hk) as ([[x d] hd] & Hf & Hv).
  exists x, d, hd. split; [exact Hf|].
  unfold history_at, history_of_values. simpl.
  rewrite !list_lookup_fmap, Hv. done.
Qed.

(** X6. Evaluating two sequences of batches one after the other and
    evaluating their concatenation in one pass give the same values: the
    history of the single pass is the history of the first pass followed by
    the history of the second, whatever the labels. *)
Theorem eval_step_of_concatenation criterion device bs1 bs2 desc1 desc2 desc w h1 h2 :
  let first := eval_step criterion device bs1 desc1 w in
  let second := eval_step criterion device bs2 desc2 first.2 in
  first.1 = Ok h1 ->
  second.1 = Ok h2 ->
  (eval_step criterion device (bs1 ++ bs2) desc w).1 = Ok (history_app h1 h2).
Proof.
  simpl. intros H1 H2.
  destruct (eval_step_frame criterion device bs1 desc1 w) as (Hm & _). simpl in Hm.
  rewrite eval_step_result in H1, H2 |- *. rewrite Hm in H2. simpl in H2.
  unfold eval_history in *.
  destruct (res_map _ bs1) as [v1|] eqn:E1; [|done].
  destruct (res_map _ bs2) as [v2|] eqn:E2; [|done].
  injection H1 as <-. injection H2 as <-.
  rewrite (res_map_app _ _ _ _ _ E1 E2).
  unfold history_of_values, history_app. simpl. now rewrite !fmap_app.
Qed.

(** ** A loss dict without "combined" *)

(** X7. When the loss function returns a dict without a "combined" entry,
    [train_step] raises [KeyError] in its first batch.  The transfers, the
    forward pass and the loss function have been called and the gradients
    have already been reset to [None], but no scaling, backward pass,
    optimizer step, scaler update or scheduler step is made: parameters,
    optimizer, scaler and scheduler are as before. *)
Theorem train_step_missing_combined criterion device b rest w imgs masks preds bufs loss_t :
  tensor_to b.1 device = Ok imgs ->
  tensor_to b.2 device = Ok masks ->
  forward_train ctx_train (parameters (model w)) (buffers (model w)) imgs = Ok (preds, bufs) ->
  criterion ctx_train preds masks = Ok loss_t ->
  loss_t !! "combined" = None ->
  let run := train_step criterion device (b :: rest) w in
  run.1 = Raise (KeyError "combined") /\
  trace run.2 =
    trace w ++ [EvTqdm "Training" (S (length rest)); EvModelTrain; EvTo; EvTo;
                EvForward ctx_train; EvCriterion ctx_train; EvZeroGrad true] /\
  parameters (model run.2) = parameters (model w) /\
  grad (model run.2) = None /\
  optimizer run.2 = optimizer w /\
  scaler run.2 = scaler w /\
  scheduler run.2 = scheduler w.
Proof.
  intros Hi Hm Hf Hc Hk. simpl.
  unfold train_step, model_train. simpl train_loop.
  unfold train_batch, train_update, model_call, optimizer_zero_grad, dict_getitem.
  cbv [bind ret lift gets modify emit call]. simpl.
  rewrite Hi, Hm. simpl. rewrite Hf. simpl. rewrite Hc, Hk. simpl.
  rewrite <- !app_assoc. repeat split.
Qed.

(** ** The structure of a completed run *)

Lemma world_ext (w1 w2 : World) :
  model w1 = model w2 -> optimizer w1 = optimizer w2 -> scaler w1 = scaler w2 ->
  scheduler w1 = scheduler w2 -> disk w1 = disk w2 -> trace w1 = trace w2 ->
  w1 = w2.
Proof. destruct w1, w2. simpl. now intros -> -> -> -> -> ->. Qed.

Lemma train_ok_inv w w' :
  train w = (Ok tt, w') ->
  exists train_set val_set test_set pb0 pb so w1,
    ImageDataset "../data/train" get_train_transforms = Ok train_set /\
    ImageDataset "../data/val" get_val_transforms = Ok val_set /\
    ImageDataset "../data/test" get_val_transforms = Ok test_set /\
    UNet 3 1 = Ok pb0 /\
    module_to pb0 DEVICE = Ok pb /\
    OneCycleLR (AdamW pb.1 LEARNING_RATE) LEARNING_RATE
      (loader_len (mk_loader train_set true)) N_EPOCHS = Ok so /\
    train_epochs BCEDiceLoss (mk_loader train_set true) (mk_loader val_set false)
      (seq 0 N_EPOCHS) (train_setup_world pb so w) = (Ok tt, w1) /\
    test_and_save BCEDiceLoss (mk_loader test_set false)
      (set_trace (trace w1 ++ [EvPrint PTrainingComplete]) w1) = (Ok tt, w').
Proof.
  intros Hrun. unfold train in Hrun. unfold_prims Hrun. simpl in Hrun.
  split_run Hrun. subst r. destruct a5.
  exists a, a0, a1, a2, a3, a4, w0.
  match type of E5 with
  | train_epochs _ _ _ _ ?W = _ =>
      assert (train_setup_world a3 a4 w = W) as Hw
  end.
  { apply world_ext; try reflexivity.
    lazy beta iota delta [trace set_trace set_scaler set_optimizer set_scheduler
                          set_model train_setup_world train_setup_events].
    rewrite <- !app_assoc. reflexivity. }
  rewrite <- Hw in E5. clear Hw.
  do 6 (split; [first [assumption | reflexivity]|]). split; [exact E5 | exact Hrun].
Qed.

Lemma filter_pass_events_start evs shown :
  List.filter is_pass_start evs = [] ->
  List.filter is_pass_start (pass_events evs shown) = [].
Proof.
  intros Hevs. induction shown as [|sd shown IH]; [done|].
  unfold pass_events in *. simpl. now rewrite !List.filter_app, Hevs, IH.
Qed.

Lemma filter_runner_start r ws n shown :
  List.filter is_pass_start
    (runner_enter_events r n ++ pass_events (runner_body_events r ws) shown) =
  [EvTqdm (match r with TrainRunner => "Training" | EvalRunner desc => desc end) n].
Proof.
  rewrite List.filter_app, filter_pass_events_start.
  - now destruct r.
  - destruct r, ws; reflexivity.
Qed.

(** The progress bar and the scheduler steps of a completed runner call. *)
Lemma runner_step_summary r criterion device dataloader w h w' :
  runner_step r criterion device dataloader w = (Ok h, w') ->
  exists evs,
    trace w' = trace w ++ evs /\
    List.filter is_pass_start evs =
      [EvTqdm (match r with TrainRunner => "Training" | EvalRunner desc => desc end)
         (length dataloader)] /\
    step_count w' =
      Nat.add (match r with TrainRunner => length dataloader | EvalRunner _ => 0 end)
        <$> step_count w.
Proof.
  intros Hrun.
  apply runner_step_run in Hrun as (shown & l' & _ & Hlen & T & S & _).
  eexists. split; [exact T|]. split; [apply filter_runner_start|].
  rewrite S. unfold step_count, has_scheduler.
  destruct r, (scheduler w); simpl; try done. f_equal. lia.
Qed.

Lemma train_epoch_ok criterion train_loader val_loader epoch w w' :
  train_epoch criterion train_loader val_loader epoch w = (Ok tt, w') ->
  exists evs,
    trace w' = trace w ++ evs /\
    List.filter is_pass_start evs = epoch_passes train_loader val_loader [epoch] /\
    step_count w' = Nat.add (length (loader_batches train_loader epoch)) <$> step_count w.
Proof.
  intros Hrun. unfold train_epoch in Hrun.
  apply bind_ok_inv in Hrun as ([] & w0 & Hhead & Hrun). injection Hhead as <-.
  apply bind_ok_inv in Hrun as (train_hist & w1 & Htrain & Hrun).
  apply bind_ok_inv in Hrun as (val_hist & w2 & Hval & Hrun).
  apply bind_ok_inv in Hrun as (lr & w3 & Hlr & Hrun).
  assert (w3 = w2) as ->.
  { unfold get_last_lr in Hlr. unfold_prims Hlr. split_run Hlr. now injection Hlr. }
  unfold_prims Hrun. injection Hrun as <-.
  apply (runner_step_summary TrainRunner) in Htrain as (e1 & T1 & F1 & S1).
  apply (runner_step_summary (EvalRunner "Validating")) in Hval as (e2 & T2 & F2 & S2).
  simpl in T1. eexists. split.
  - simpl. rewrite T2, T1, <- !app_assoc. reflexivity.
  - split.
    + simpl. rewrite !List.filter_app, F1, F2. reflexivity.
    + simpl. unfold step_count in *. simpl in *. rewrite S2, S1.
      now destruct (scheduler w).
Qed.

Lemma train_epochs_ok criterion train_loader val_loader epochs w w' :
  train_epochs criterion train_loader val_loader epochs w = (Ok tt, w') ->
  exists evs,
    trace w' = trace w ++ evs /\
    List.filter is_pass_start evs = epoch_passes train_loader val_loader epochs /\
    step_count w' = Nat.add (training_batches train_loader epochs) <$> step_count w.
Proof.
  revert w. induction epochs as [|epoch rest IH]; intros w Hrun.
  - injection Hrun as <-. exists []. rewrite List.app_nil_r. repeat split.
    now destruct (step_count w).
  - simpl in Hrun. apply bind_ok_inv in Hrun as ([] & w1 & Hepoch & Hrest).
    apply train_epoch_ok in Hepoch as (e1 & T1 & F1 & S1).
    apply IH in Hrest as (e2 & T2 & F2 & S2).
    exists (e1 ++ e2). split; [now rewrite T2, T1, app_assoc|]. split.
    + rewrite List.filter_app, F1, F2. unfold epoch_passes. simpl.
      reflexivity.
    + rewrite S2, S1. unfold training_batches. simpl.
      destruct (step_count w) as [c|]; simpl; [|reflexivity].
      apply (f_equal Some). change (list_fmap nat nat) with (@fmap list _ nat nat). lia.
Qed.

Lemma os_makedirs_ok path w w' :
  os_makedirs path true w = (Ok tt, w') ->
  trace w' = trace w ++ [EvMakedirs path true] /\
  disk w' !! path = Some Dir /\
  model w' = model w /\
  scheduler w' = scheduler w.
Proof.
  unfold os_makedirs. cbv [bind ret lift gets modify emit]. simpl.
  destruct (disk w !! path) as [[|p b|]|] eqn:Ed; simpl;
    [| | |destruct (os_mkdir path) as [[]|e0]; simpl];
    intros [= <-]; simpl; repeat split; try done.
  apply lookup_insert_eq.
Qed.

(** The test pass and the save of a completed run. *)
Lemma test_and_save_ok criterion test_loader w w' :
  test_and_save criterion test_loader w = (Ok tt, w') ->
  exists evs,
    trace w' = trace w ++ evs /\
    List.filter is_pass_start evs = [EvTqdm "Testing" (length (loader_batches test_loader 0))] /\
    step_count w' = step_count w /\
    model w' = set_training false (model w) /\
    disk w' !! "../models/UNet.pth" =
      Some (File (parameters (model w)) (buffers (model w))).
Proof.
  intros Hrun. unfold test_and_save in Hrun.
  apply bind_ok_inv in Hrun as (test_hist & w1 & Htest & Hrun).
  destruct (eval_step_frame criterion DEVICE (loader_batches test_loader 0) "Testing" w)
    as (Hm & _ & _ & Hs & _).
  rewrite Htest in Hm, Hs. simpl in Hm, Hs.
  apply (runner_step_summary (EvalRunner "Testing")) in Htest as (e1 & T1 & F1 & S1).
  apply bind_ok_inv in Hrun as ([] & w2 & Hprint & Hrun).
  injection Hprint as <-.
  apply bind_ok_inv in Hrun as ([] & w3 & Hmk & Hsave).
  apply os_makedirs_ok in Hmk as (T3 & D3 & M3 & S3). simpl in T3, M3, S3.
  pose proof (torch_save_run w3 D3) as Hrun. simpl in Hrun. rewrite Hsave in Hrun.
  subst w'. simpl.
  eexists. split; [rewrite T3, T1, <- !app_assoc; reflexivity|].
  split; [rewrite !List.filter_app, F1; reflexivity|].
  split; [unfold step_count in *; simpl in *; rewrite S3, S1; now destruct (scheduler w)|].
  split; [now rewrite M3|].
  rewrite lookup_insert_eq, M3, Hm. reflexivity.
Qed.

Lemma sum_list_constant {A} (f : A -> nat) (l : list A) n :
  (forall a, f a = n) -> sum_list (f <$> l) = n * length l.
Proof.
  intros Hf. induction l as [|a rest IH]; [simpl; lia|].
  rewrite fmap_cons.
  change (sum_list (f a :: (f <$> rest))) with (f a + sum_list (f <$> rest)).
  rewrite Hf, IH. simpl. lia.
Qed.

(** X8. With a training loader that yields [len(train_loader)] batches in
    every epoch, a completed run of [train] has stepped the scheduler
    exactly [len(train_loader) * N_EPOCHS] times beyond its initial count:
    the number of steps the one-cycle schedule was created for
    ([steps_per_epoch] times [epochs]).  Validation and test passes add
    none. *)
Theorem train_exhausts_the_schedule w w' :
  (forall ds epoch,
     length (loader_batches (mk_loader ds true) epoch) = loader_len (mk_loader ds true)) ->
  train w = (Ok tt, w') ->
  exists train_set pb sched opt,
    ImageDataset "../data/train" get_train_transforms = Ok train_set /\
    OneCycleLR (AdamW pb LEARNING_RATE) LEARNING_RATE
      (loader_len (mk_loader train_set true)) N_EPOCHS = Ok (sched, opt) /\
    step_count w' =
      Some (last_epoch sched + loader_len (mk_loader train_set true) * N_EPOCHS).
Proof.
  intros Hlen Hrun.
  apply train_ok_inv in Hrun
    as (train_set & val_set & test_set & pb0 & pb & [sched opt] & w1
        & Htrain & _ & _ & _ & _ & Hsched & Hepochs & Htest).
  exists train_set, pb.1, sched, opt. split; [exact Htrain|]. split; [exact Hsched|].
  apply train_epochs_ok in Hepochs as (e1 & _ & _ & S1).
  apply test_and_save_ok in Htest as (e2 & _ & _ & S2 & _).
  rewrite S2. unfold step_count at 1. simpl. fold (step_count w1). rewrite S1.
  unfold training_batches.
  rewrite (sum_list_constant _ _ (loader_len (mk_loader train_set true)))
    by (intros epoch; apply Hlen).
  rewrite length_seq. unfold step_count. simpl. f_equal. lia.
Qed.

(** X9. The progress bars a completed run of [train] creates are, in
    this order: for each epoch from [0] to [N_EPOCHS - 1] a bar "Training"
    over the training loader and then a bar "Validating" over the
    validation loader, and at the end a single bar "Testing" over the test
    loader.  No other pass is run. *)
Theorem train_pass_sequence w w' :
  train w = (Ok tt, w') ->
  exists train_set val_set test_set evs,
    ImageDataset "../data/train" get_train_transforms = Ok train_set /\
    ImageDataset "../data/val" get_val_transforms = Ok val_set /\
    ImageDataset "../data/test" get_val_transforms = Ok test_set /\
    trace w' = trace w ++ evs /\
    List.filter is_pass_start evs =
      epoch_passes (mk_loader train_set true) (mk_loader val_set false) (seq 0 N_EPOCHS)
      ++ [EvTqdm "Testing" (length (loader_batches (mk_loader test_set false) 0))].
Proof.
  intros Hrun.
  apply train_ok_inv in Hrun
    as (train_set & val_set & test_set & pb0 & pb & so & w1
        & Htrain & Hval & Htest & _ & _ & _ & Hepochs & Hsave).
  exists train_set, val_set, test_set.
  apply train_epochs_ok in Hepochs as (e1 & T1 & F1 & _).
  apply test_and_save_ok in Hsave as (e2 & T2 & F2 & _).
  simpl in T1, T2. eexists. repeat (split; [done|]). split.
  - rewrite T2, T1, <- !app_assoc. reflexivity.
  - rewrite !List.filter_app, F1, F2. reflexivity.
Qed.

(** X10. When the test pass and the save at the end of [train] complete,
    the file "../models/UNet.pth" holds the parameters and buffers the model
    had when the test pass started, and the model still has them: the
    weights that are saved are the weights that were tested. *)
Theorem saved_weights_are_the_tested_weights criterion test_loader w w' :
  test_and_save criterion test_loader w = (Ok tt, w') ->
  disk w' !! "../models/UNet.pth" = Some (File (parameters (model w)) (buffers (model w))) /\
  parameters (model w') = parameters (model w) /\
  buffers (model w') = buffers (model w).
Proof.
  intros Hrun. apply test_and_save_ok in Hrun as (evs & _ & _ & _ & Hm & Hd).
  rewrite Hm. done.
Qed.

(** ** The order of the batches in an evaluation pass *)

Lemma res_map_perm {A B} (f : A -> Res B) l l' vals :
  l ≡ₚ l' -> res_map f l = Ok vals ->
  exists vals', res_map f l' = Ok vals' /\ vals ≡ₚ vals'.
Proof.
  intros Hperm. revert vals.
  induction Hperm as [|a l l' Hperm IH|a a' l|l1 l2 l3 H12 IH12 H23 IH23]; intros vals Hmap.
  - exists vals. done.
  - simpl in *. destruct (f a) as [b|]; [|done].
    destruct (res_map f l) as [bs|] eqn:Hl; [|done]. injection Hmap as <-.
    destruct (IH bs eq_refl) as (bs' & -> & Hbs). exists (b :: bs'). split; [done|].
    now constructor.
  - simpl in *. destruct (f a') as [b'|]; [|done]. destruct (f a) as [b|]; [|done].
    destruct (res_map f l) as [bs|]; [|done]. injection Hmap as <-.
    exists (b :: b' :: bs). split; [done|]. apply perm_swap.
  - destruct (IH12 vals Hmap) as (v2 & H2 & P2).
    destruct (IH23 v2 H2) as (v3 & H3 & P3).
    exists v3. split; [done|]. now transitivity v2.
Qed.

(** X11. Evaluating the same batches in another order completes whenever
    the original order does and returns the same per-batch values in the
    new order: the rows (loss, overlap, distance) of the second history are
    a permutation of the rows of the first, and so is each of the three
    sequences. *)
Theorem eval_batch_order_permutes_history criterion device bs bs' desc w h :
  bs ≡ₚ bs' ->
  (eval_step criterion device bs desc w).1 = Ok h ->
  exists vals vals',
    vals ≡ₚ vals' /\
    h = history_of_values vals /\
    (eval_step criterion device bs' desc w).1 = Ok (history_of_values vals') /\
    loss h ≡ₚ loss (history_of_values vals') /\
    dice h ≡ₚ dice (history_of_values vals') /\
    hausdorff h ≡ₚ hausdorff (history_of_values vals').
Proof.
  intros Hperm Hrun. rewrite eval_step_result in Hrun. unfold eval_history in Hrun.
  destruct (res_map _ bs) as [vals|] eqn:Hmap; [|done]. injection Hrun as <-.
  destruct (res_map_perm _ _ _ _ Hperm Hmap) as (vals' & Hmap' & Hvals).
  exists vals, vals'. split; [done|]. split; [done|].
  rewrite eval_step_result. unfold eval_history. rewrite Hmap'.
  split; [done|]. unfold history_of_values. simpl.
  repeat split; now apply fmap_Permutation.
Qed.

(** ** Two training passes in a row *)

Lemma agree_emit_objects ev1 ev2 : agree same_objects (emit ev1) (emit ev2).
Proof. intros w1 w2 HR. split; [done|exact HR]. Qed.

Lemma agree_gets_objects {A} (f : World -> A) :
  (forall w, f w = f (objects w)) -> agree same_objects (gets f) (gets f).
Proof.
  intros Hf w1 w2 HR. split; [|exact HR]. simpl.
  rewrite (Hf w1), (Hf w2). unfold same_objects in HR. now rewrite HR.
Qed.

Lemma agree_modify_objects (f : World -> World) :
  (forall w, objects (f w) = objects (f (objects w))) ->
  agree same_objects (modify f) (modify f).
Proof.
  intros Hf w1 w2 HR. split; [done|]. unfold same_objects in *. simpl.
  rewrite (Hf w1), (Hf w2). now rewrite HR.
Qed.

Lemma agree_call_objects ev {A} (r : Res A) :
  agree same_objects (call ev r) (call ev r).
Proof.
  unfold call. apply agree_bind; [apply agree_emit_objects | intros; apply agree_lift].
Qed.

Ltac agree_objects :=
  repeat first
    [ apply agree_ret | apply agree_lift | apply agree_emit_objects
    | apply agree_call_objects
    | apply agree_gets_objects; reflexivity
    | apply agree_modify_objects; reflexivity
    | apply agree_bind; [|intros] ].

Lemma agree_model_call_objects c imgs :
  agree same_objects (model_call c imgs) (model_call c imgs).
Proof.
  unfold model_call.
  apply agree_bind; [apply agree_emit_objects|intros _].
  apply agree_bind; [apply agree_gets_objects; reflexivity|intros m].
  destruct (training m); agree_objects.
Qed.

Lemma agree_scaler_step_objects : agree same_objects scaler_step_call scaler_step_call.
Proof.
  intros w1 w2 HR. unfold scaler_step_call. cbv [bind ret lift gets modify emit]. simpl.
  unfold same_objects, objects, set_trace in HR. injection HR as Hm Ho Hs Hsch Hd.
  rewrite Hm, Ho, Hs.
  destruct (scaler_step _ _ _ _) as [[[[s o] p] g]|e]; simpl.
  - split; [done|]. unfold same_objects, objects, set_trace. simpl. congruence.
  - split; [done|]. unfold same_objects, objects, set_trace. simpl. congruence.
Qed.

Lemma agree_train_update_objects criterion device b :
  agree same_objects (train_update criterion device b) (train_update criterion device b).
Proof.
  unfold train_update.
  apply agree_bind; [apply agree_call_objects|intros imgs].
  apply agree_bind; [apply agree_call_objects|intros masks].
  apply agree_bind; [apply agree_model_call_objects|intros preds].
  apply agree_bind; [apply agree_call_objects|intros loss_t].
  apply agree_bind; [unfold optimizer_zero_grad; agree_objects|intros _].
  apply agree_bind; [apply agree_lift|intros combined].
  apply agree_bind; [unfold scaler_scale_call; agree_objects|intros scaled].
  apply agree_bind; [unfold tensor_backward; agree_objects|intros _].
  apply agree_bind; [apply agree_scaler_step_objects|intros _].
  apply agree_bind; [unfold scaler_update_call; agree_objects|intros _].
  apply agree_bind; [apply agree_gets_objects; reflexivity|intros sch].
  apply agree_bind; [|intros _; apply agree_ret].
  destruct sch as [s|]; [unfold scheduler_step|]; agree_objects.
Qed.

Lemma same_objects_preorder : PreOrder same_objects.
Proof.
  split; [intros w; reflexivity|].
  intros w1 w2 w3 H12 H23. unfold same_objects in *. congruence.
Qed.
#[local] Existing Instance same_objects_preorder.

Lemma holds_emit_objects ev : holds same_objects (emit ev).
Proof. intros w. reflexivity. Qed.

Lemma record_batch_same_objects i o l : holds same_objects (record_batch i o l).
Proof.
  unfold record_batch.
  repeat first
    [ apply holds_ret; apply _
    | apply holds_lift; apply _
    | apply holds_emit_objects
    | apply holds_call; [apply _|]
    | apply holds_bind; [apply _| |intros] ].
Qed.

(** One iteration run from two worlds with the same objects, at two
    places of two histories. *)
Lemma iteration_objects (body : Batch -> M Outputs) b i1 l1 i2 l2 w1 w2 n1 n2 :
  agree same_objects (body b) (body b) ->
  same_objects w1 w2 ->
  history_length (history l1) n1 -> history_length (history l2) n2 ->
  i1 < n1 -> i2 < n2 ->
  match bind (body b) (fun o => record_batch i1 o l1) w1,
        bind (body b) (fun o => record_batch i2 o l2) w2 with
  | (Ok l1', w1'), (Ok l2', w2') =>
      same_objects w1' w2' /\
      exists x d hd,
        history l1' = written i1 x d hd (history l1) /\
        history l2' = written i2 x d hd (history l2)
  | (Raise e1, w1'), (Raise e2, w2') => e1 = e2 /\ same_objects w1' w2'
  | _, _ => False
  end.
Proof.
  intros Hbody HR Hn1 Hn2 Hi1 Hi2. unfold bind.
  destruct (Hbody w1 w2 HR) as [Hres Hobj].
  destruct (body b w1) as [[o|e] w1a], (body b w2) as [[o2|e2] w2a]; simpl in *;
    try discriminate; [|injection Hres as <-; done].
  injection Hres as <-.
  pose proof (record_batch_same_objects i1 o l1 w1a) as F1.
  pose proof (record_batch_same_objects i2 o l2 w2a) as F2.
  assert (forall wa wb, same_objects w1a wa -> same_objects w2a wb -> same_objects wa wb)
    as Hjoin by (unfold same_objects in *; intros; congruence).
  destruct (record_batch i1 o l1 w1a) as [[l1'|e1] w1'] eqn:R1,
           (record_batch i2 o l2 w2a) as [[l2'|e2] w2'] eqn:R2; simpl in *.
  - split; [now apply Hjoin|].
    apply record_batch_ok in R1 as (c1 & d1 & hd1 & Hc1 & Hd1 & Hh1 & _ & _ & _ & E1 & _).
    apply record_batch_ok in R2 as (c2 & d2 & hd2 & Hc2 & Hd2 & Hh2 & _ & _ & _ & E2 & _).
    exists (item c1), d1, hd1. split; [exact E1|].
    rewrite E2. congruence.
  - apply record_batch_ok in R1 as (c1 & d1 & hd1 & Hc1 & Hd1 & Hh1 & _).
    apply (record_batch_raise n2) in R2; [|done|done].
    rewrite (recorded_batch_values o (item c1) d1 hd1) in R2; [done|].
    repeat split; eauto.
  - apply record_batch_ok in R2 as (c2 & d2 & hd2 & Hc2 & Hd2 & Hh2 & _).
    apply (record_batch_raise n1) in R1; [|done|done].
    rewrite (recorded_batch_values o (item c2) d2 hd2) in R1; [done|].
    repeat split; eauto.
  - apply (record_batch_raise n1) in R1; [|done|done].
    apply (record_batch_raise n2) in R2; [|done|done].
    split; [congruence | now apply Hjoin].
Qed.

Lemma overwrite_history_cons i x d hd vals h n :
  history_length h n -> i < n ->
  overwrite_history (S i) vals (written i x d hd h) =
  overwrite_history i ((x, d, hd) :: vals) h.
Proof.
  intros (Hl & Hd & Hh) Hi. unfold overwrite_history, written. simpl.
  rewrite !overwrite_cons by lia. reflexivity.
Qed.

Lemma pass_loop_step (body : Batch -> M Outputs) b rest i l w :
  pass_loop body (b :: rest) i l w =
  match bind (body b) (fun o => record_batch i o l) w with
  | (Ok l', w') => pass_loop body rest (S i) l' w'
  | (Raise e, w') => (Raise e, w')
  end.
Proof. reflexivity. Qed.

(** A pass run from two worlds with the same objects, at two places of two
    histories: the same outcome, the same objects, the same values. *)
Lemma pass_loop_objects (body : Batch -> M Outputs) n1 n2 :
  (forall b, agree same_objects (body b) (body b)) ->
  forall bs i1 l1 i2 l2 w1 w2,
    same_objects w1 w2 ->
    history_length (history l1) n1 -> history_length (history l2) n2 ->
    i1 + length bs <= n1 -> i2 + length bs <= n2 ->
    match pass_loop body bs i1 l1 w1, pass_loop body bs i2 l2 w2 with
    | (Ok l1', w1'), (Ok l2', w2') =>
        same_objects w1' w2' /\
        exists vals,
          length vals = length bs /\
          history l1' = overwrite_history i1 vals (history l1) /\
          history l2' = overwrite_history i2 vals (history l2)
    | (Raise e1, w1'), (Raise e2, w2') => e1 = e2 /\ same_objects w1' w2'
    | _, _ => False
    end.
Proof.
  intros Hbody bs.
  induction bs as [|b rest IH]; intros i1 l1 i2 l2 w1 w2 HR Hn1 Hn2 Hi1 Hi2.
  - simpl. split; [done|]. exists []. split; [done|].
    unfold overwrite_history, overwrite. simpl. rewrite !Nat.add_0_r, !take_drop.
    now destruct (history l1), (history l2).
  - simpl in Hi1, Hi2. rewrite !pass_loop_step.
    pose proof (iteration_objects body b i1 l1 i2 l2 w1 w2 n1 n2 (Hbody b) HR Hn1 Hn2
                  ltac:(lia) ltac:(lia)) as Hit.
    destruct (bind (body b) (fun o => record_batch i1 o l1) w1) as [[l1a|e1] w1a],
             (bind (body b) (fun o => record_batch i2 o l2) w2) as [[l2a|e2] w2a];
      try done.
    destruct Hit as (HRa & x & d & hd & E1 & E2).
    assert (history_length (history l1a) n1) as Hn1a by (rewrite E1; now apply written_length).
    assert (history_length (history l2a) n2) as Hn2a by (rewrite E2; now apply written_length).
    pose proof (IH (S i1) l1a (S i2) l2a w1a w2a HRa Hn1a Hn2a ltac:(lia) ltac:(lia)) as Hrest.
    destruct (pass_loop body rest (S i1) l1a w1a) as [[l1'|e1] w1'],
             (pass_loop body rest (S i2) l2a w2a) as [[l2'|e2] w2']; try done.
    destruct Hrest as (HR' & vals & Hlen & H1 & H2). split; [done|].
    exists ((x, d, hd) :: vals). split; [simpl; now rewrite Hlen|].
    rewrite H1, H2, E1, E2.
    rewrite (overwrite_history_cons _ _ _ _ _ _ n1) by (done || lia).
    rewrite (overwrite_history_cons _ _ _ _ _ _ n2) by (done || lia).
    done.
Qed.

Lemma overwrite_twice (v1 v2 a : list scalar) :
  length a = length v1 + length v2 ->
  overwrite (length v1) v2 (overwrite 0 v1 a) = v1 ++ v2.
Proof.
  intros Hlen. unfold overwrite. simpl.
  rewrite take_app_length.
  rewrite drop_ge by (rewrite length_app, length_drop; lia).
  now rewrite app_nil_r.
Qed.

Lemma overwrite_split (v1 v2 a a1 a2 : list scalar) n1 n2 :
  length v1 = n1 -> length v2 = n2 ->
  length a = n1 + n2 -> length a1 = n1 -> length a2 = n2 ->
  overwrite n1 v2 (overwrite 0 v1 a) = overwrite 0 v1 a1 ++ overwrite 0 v2 a2.
Proof.
  intros <- <- Ha Ha1 Ha2.
  rewrite overwrite_twice by exact Ha. now rewrite !overwrite_all.
Qed.

Lemma history_twice vals1 vals2 n1 n2 :
  length vals1 = n1 -> length vals2 = n2 ->
  overwrite_history n1 vals2
    (overwrite_history 0 vals1 (history (init_locals (n1 + n2)))) =
  history_app (overwrite_history 0 vals1 (history (init_locals n1)))
              (overwrite_history 0 vals2 (history (init_locals n2))).
Proof.
  intros H1 H2. unfold overwrite_history, history_app, init_locals, np_zeros. simpl.
  f_equal; apply (overwrite_split _ _ _ _ _ n1 n2);
    rewrite ?length_fmap, ?length_replicate; done.
Qed.

Lemma set_training_same b (m : NNModule) : training m = b -> set_training b m = m.
Proof. intros <-. now destruct m. Qed.

(** X12. Two completed calls of [train_step] in a row, over [bs1] and then
    over [bs2], amount to one call over [bs1 ++ bs2]: the single call
    returns the first history followed by the second and leaves the model,
    the optimizer, the scaler, the scheduler and the file system exactly as
    the second call does. *)
Theorem train_step_of_concatenation criterion device bs1 bs2 w h1 h2 :
  let first := train_step criterion device bs1 w in
  let second := train_step criterion device bs2 first.2 in
  let whole := train_step criterion device (bs1 ++ bs2) w in
  first.1 = Ok h1 ->
  second.1 = Ok h2 ->
  whole.1 = Ok (history_app h1 h2) /\ objects whole.2 = objects second.2.
Proof.
  simpl.
  change (train_step criterion device) with (runner_step TrainRunner criterion device).
  set (body := train_update criterion device).
  assert (forall b, agree same_objects (body b) (body b)) as Hbody
    by (intros b; apply agree_train_update_objects).
  rewrite !runner_step_unfold.
  change (runner_body TrainRunner criterion device) with body.
  rewrite length_app. set (n1 := length bs1). set (n2 := length bs2).
  unfold bind, ret. rewrite pass_loop_app. unfold bind. fold n1. change (0 + n1) with n1.
  set (wa := runner_enter_world TrainRunner n1 w).
  set (wb := runner_enter_world TrainRunner (n1 + n2) w).
  pose proof (pass_loop_objects body n1 (n1 + n2) Hbody bs1 0 (init_locals n1) 0
                (init_locals (n1 + n2)) wa wb eq_refl (init_locals_length _)
                (init_locals_length _) ltac:(fold n1; lia) ltac:(fold n1; lia)) as P1.
  assert (training (model (pass_loop body bs1 0 (init_locals n1) wa).2) = true) as Hmode.
  { unfold body. rewrite <- train_loop_pass.
    apply (train_loop_keeps_mode criterion device bs1 0 (init_locals n1) wa). }
  destruct (pass_loop body bs1 0 (init_locals n1) wa) as [[la|ea] wa'],
           (pass_loop body bs1 0 (init_locals (n1 + n2)) wb) as [[lb|eb] wb'];
    simpl in *; try done.
  intros [= <-]. destruct P1 as (HR1 & vals1 & Hl1 & Ha & Hb).
  set (wc := runner_enter_world TrainRunner n2 wa').
  assert (same_objects wc wb') as HR2.
  { unfold same_objects in *. rewrite <- HR1. unfold wc, runner_enter_world, objects, set_trace.
    simpl. rewrite (set_training_same true (model wa') Hmode). reflexivity. }
  assert (history_length (history lb) (n1 + n2)) as Hlb.
  { rewrite Hb. unfold overwrite_history, history_length, overwrite, init_locals, np_zeros.
    simpl. rewrite !length_app, !length_drop, !length_fmap, !length_replicate. lia. }
  pose proof (pass_loop_objects body n2 (n1 + n2) Hbody bs2 0 (init_locals n2) n1 lb
                wc wb' HR2 (init_locals_length _) Hlb
                ltac:(fold n2; lia) ltac:(fold n2; lia)) as P2.
  destruct (pass_loop body bs2 0 (init_locals n2) wc) as [[lc|ec] wc'],
           (pass_loop body bs2 n1 lb wb') as [[ld|ed] wd'];
    simpl in *; try done.
  intros [= <-]. destruct P2 as (HR3 & vals2 & Hl2 & Hc & Hd).
  split; [|symmetry; exact HR3].
  f_equal. rewrite Hd, Hb, Ha, Hc. apply history_twice; [exact Hl1 | exact Hl2].
Qed.

End Proofs.

(** * The statements at work on the concrete instance *)

#[local] Existing Instance Toy.toy.
#[local] Existing Instance Toy.providers.

Lemma history_covers_every_batch_witness :
  let run := runner_step TrainRunner Toy.criterion "cpu" Toy.batches Toy.world in
  run = (Ok Toy.train_history, run.2) /\
  history_length Toy.train_history (length Toy.batches) /\
  forall k b, Toy.batches !! k = Some b ->
    exists l_k w_k o w_k' x d hd,
      runner_prefix TrainRunner Toy.criterion "cpu" Toy.batches k Toy.world = (Ok l_k, w_k) /\
      runner_body TrainRunner Toy.criterion "cpu" b w_k = (Ok o, w_k') /\
      recorded o x d hd /\
      history_at Toy.train_history k x d hd.
Proof.
  intros run.
  assert (run = (Ok Toy.train_history, run.2)) as Hrun by (vm_compute; reflexivity).
  split; [exact Hrun|].
  exact (history_covers_every_batch TrainRunner _ _ _ _ _ _ Hrun).
Defined.

Lemma final_display_is_running_average_witness :
  let run := runner_step (EvalRunner "Validating") Toy.criterion "cpu" Toy.batches Toy.world in
  let h := Toy.eval_history in
  let n := float_of_nat (length Toy.batches) in
  Toy.batches <> [] /\
  run = (Ok h, run.2) /\
  np_sum (loss h) = sequential_sum (loss h) /\
  np_sum (dice h) = sequential_sum (dice h) /\
  last (trace run.2) =
    Some (EvSetPostfix (format_f 4 (sequential_sum (loss h) / n)%float)
                       (format_f 4 (sequential_sum (dice h) / n)%float)) /\
  last (trace run.2) =
    Some (EvSetPostfix (format_f 4 (np_mean (loss h))) (format_f 4 (np_mean (dice h)))) /\
  np_mean (loss h) = ((0 + sequential_sum (loss h)) / n)%float /\
  format_f 4 (np_mean (loss h)) = "0.1000".
Proof.
  intros run h n.
  assert (Toy.batches <> []) as Hne by discriminate.
  assert (run = (Ok h, run.2)) as Hrun by (vm_compute; reflexivity).
  assert (np_sum (loss h) = sequential_sum (loss h)) as Hl by (vm_compute; reflexivity).
  assert (np_sum (dice h) = sequential_sum (dice h)) as Hd by (vm_compute; reflexivity).
  assert (length Toy.batches < 8) as Hshort by (simpl; lia).
  destruct (final_display_is_running_average (EvalRunner "Validating") _ _ _ _ _ _ Hne Hrun)
    as (Hshown & Hmean & Hfew).
  split; [exact Hne|]. split; [exact Hrun|]. split; [exact Hl|]. split; [exact Hd|].
  split; [exact Hshown|]. split; [exact (Hmean Hl Hd)|].
  split; [exact (proj1 (Hfew Hshort))|].
  vm_compute; reflexivity.
Defined.

(** Eight batches with the losses 0.90, 0.89, 0.77, 0.76, 0.75, 0.52,
    0.52, 0.28.  Added one after the other they give
    5.3899999999999997, and the last display shows 0.6737; numpy's
    pairwise sum is 5.3900000000000006, and the mean is reported as
    0.6738. *)
Lemma final_display_differs_from_reported_mean :
  let run := eval_step Toy.criterion_hundredths "cpu" Toy.batches8 "Validating" Toy.world in
  let h := {| loss := [0.9; 0.89; 0.77; 0.76; 0.75; 0.52; 0.52; 0.28]%float;
              dice := [0; 0; 0; 0; 0; 0; 0; 0]%float;
              hausdorff := [90; 89; 77; 76; 75; 52; 52; 28]%float |} in
  run.1 = Ok h /\
  last (trace run.2) = Some (EvSetPostfix "0.6737" "0.0000") /\
  format_f 4 (np_mean (loss h)) = "0.6738" /\
  sequential_sum (loss h) = 5.3899999999999997%float /\
  np_sum (loss h) = 5.3900000000000006%float /\
  np_sum (loss h) <> sequential_sum (loss h).
Proof.
  simpl. repeat split; try (vm_compute; reflexivity).
  intros Heq. apply (f_equal Prim2SF) in Heq. vm_compute in Heq. discriminate Heq.
Qed.

Lemma train_step_operation_order_witness :
  let run := train_step Toy.criterion "cpu" Toy.batches Toy.world in
  run = (Ok Toy.train_history, run.2) /\
  (exists shown,
     length shown = length Toy.batches /\
     trace run.2 =
       trace Toy.world ++ [EvTqdm "Training" (length Toy.batches); EvModelTrain] ++
       pass_events
         ([EvTo; EvTo; EvForward ctx_train; EvCriterion ctx_train;
           EvZeroGrad true; EvScale; EvBackward; EvScalerStep; EvScalerUpdate]
          ++ (if has_scheduler Toy.world then [EvSchedulerStep] else []))
         shown) /\
  (forall w0, grad (model (optimizer_zero_grad true w0).2) = None) /\
  (forall w0 t w1,
     grad (model w0) = None ->
     tensor_backward t w0 = (Ok tt, w1) ->
     exists g, autograd t (parameters (model w0)) = Ok g /\ grad (model w1) = Some g).
Proof.
  intros run.
  assert (run = (Ok Toy.train_history, run.2)) as Hrun by (vm_compute; reflexivity).
  split; [exact Hrun|].
  exact (train_step_operation_order _ _ _ _ _ _ Hrun).
Defined.

Lemma scheduler_steps_once_per_batch_witness :
  let run := train_step Toy.criterion "cpu" Toy.batches Toy.world in
  run = (Ok Toy.train_history, run.2) /\
  step_count Toy.world = Some 0 /\
  step_count run.2 = Some 3 /\
  exists evs,
    trace run.2 = trace Toy.world ++ evs /\
    length (List.filter is_scheduler_event evs) = 3.
Proof.
  intros run.
  assert (run = (Ok Toy.train_history, run.2)) as Hrun by (vm_compute; reflexivity).
  split; [exact Hrun|]. split; [reflexivity|].
  destruct (scheduler_steps_once_per_batch _ _ _ _ _ _ Hrun) as (Hcount & evs & T & Hn & _).
  split; [exact Hcount|]. exists evs. split; [exact T | exact Hn].
Defined.

Lemma epoch_report_is_float64_mean_witness :
  let train_loader := mk_loader Toy.batches true in
  let val_loader := mk_loader Toy.batches false in
  let w := Toy.world in
  let run := train_epoch Toy.criterion train_loader val_loader 0 w in
  run = (Ok tt, run.2) /\
  (exists w0 train_hist w1 val_hist w2 lr,
     w0 = set_trace (trace w ++ [EvPrint (PEpochHeader (0 + 1) N_EPOCHS)]) w /\
     train_step Toy.criterion DEVICE (loader_batches train_loader 0) w0
       = (Ok train_hist, w1) /\
     eval_step Toy.criterion DEVICE (loader_batches val_loader 0) "Validating" w1
       = (Ok val_hist, w2) /\
     let reported (a : list float) (batches : list Batch) :=
       format_f 4 (np_sum a / float_of_nat (length batches))%float in
     trace run.2 = trace w2 ++
       [EvPrint (PLr lr);
        EvPrint (PTrain (reported (loss train_hist) (loader_batches train_loader 0))
                        (reported (dice train_hist) (loader_batches train_loader 0)));
        EvPrint (PVal (reported (loss val_hist) (loader_batches val_loader 0))
                      (reported (dice val_hist) (loader_batches val_loader 0)))]) /\
  np_mean [0.1; 0.2; 0.3]%float = 0.20000000000000004%float /\
  format_f 4 (np_mean [0.1; 0.2; 0.3]%float) = "0.2000" /\
  format_f 4 (np_mean []) = "nan".
Proof.
  intros train_loader val_loader w run.
  assert (run = (Ok tt, run.2)) as Hrun by (vm_compute; reflexivity).
  split; [exact Hrun|].
  exact (epoch_report_is_float64_mean _ _ _ _ _ _ Hrun).
Defined.

(** The float64 mean of the losses 0.1, 0.2, 0.3 is not the float 0.2:
    their sum is 0.60000000000000009 and the mean 0.20000000000000004.
    Only the four decimals printed agree. *)
Lemma mean_of_three_losses_is_not_exact :
  np_sum [0.1; 0.2; 0.3]%float = 0.60000000000000009%float /\
  np_mean [0.1; 0.2; 0.3]%float = 0.20000000000000004%float /\
  np_mean [0.1; 0.2; 0.3]%float <> 0.2%float /\
  PrimFloat.ltb 0.2%float (np_mean [0.1; 0.2; 0.3]%float) = true /\
  format_f 4 (np_mean [0.1; 0.2; 0.3]%float) = format_f 4 0.2%float.
Proof.
  repeat split; try (vm_compute; reflexivity).
  intros Heq. apply (f_equal Prim2SF) in Heq. vm_compute in Heq. discriminate Heq.
Qed.

(** The epoch of the instance records the losses 0.1, 0.2, 0.3 in its
    training pass and reports their mean as 0.2000. *)
Example toy_epoch_reports_mean :
  let loader := mk_loader Toy.batches false in
  let tr := trace (train_epoch Toy.criterion loader loader 0 Toy.world).2 in
  drop (length tr - 3) tr =
    [EvPrint (PLr "0.001000"); EvPrint (PTrain "0.2000" "0.0000");
     EvPrint (PVal "0.4000" "0.0000")].
Proof. vm_compute; reflexivity. Qed.

(** With a validation loader that yields no batch the epoch completes and
    reports the mean of an empty history: nan. *)
Example toy_epoch_empty_validation :
  let loader := mk_loader Toy.batches false in
  let empty := mk_loader [] false in
  let run := train_epoch Toy.criterion loader empty 0 Toy.world in
  run.1 = Ok tt /\
  last (trace run.2) = Some (EvPrint (PVal "nan" "nan")).
Proof. split; vm_compute; reflexivity. Qed.

(** The gradient reset of line 49 does not zero the gradients in place: a
    gradient that was [Some 5] is [None] after it, not [Some 0].  A pass
    that stops between the reset and the backward pass (here on a loss
    dict without "combined") shows the gradients in that state. *)
Lemma train_step_resets_gradients_to_none :
  let w := Toy.world in
  let reset := (optimizer_zero_grad true w).2 in
  let stopped := train_step Toy.criterion_no_combined "cpu" [(1, 0)%float] w in
  grad (model w) = Some 5%float /\
  grad (model reset) = None /\
  ~ zeroed_in_place w reset /\
  stopped.1 = Raise (KeyError "combined") /\
  last (trace stopped.2) = Some (EvZeroGrad true) /\
  grad (model stopped.2) = None /\
  ~ zeroed_in_place w stopped.2.
Proof.
  simpl. repeat split; try (vm_compute; reflexivity); intros Hz; discriminate Hz.
Qed.

(** A run of the orchestrator on the instance completes: two epochs, the
    test pass, then the directory and the file. *)
Example toy_train_completes :
  let run := train Toy.world in
  run.1 = Ok tt /\
  disk Toy.world = ∅ /\
  map_to_list (disk run.2) = [("../models/UNet.pth", File 7%float 6%Z); ("../models", Dir)] /\
  List.filter is_disk_event (trace run.2) =
    [EvMakedirs "../models" true; EvSave "../models/UNet.pth"] /\
  step_count run.2 = Some 6.
Proof. repeat split; vm_compute; reflexivity. Qed.

(** With a file in the place of the directory the run raises after the
    test pass and nothing is written. *)
Example toy_train_fails_without_saving :
  let w := set_disk {[ "../models" := File 0%float 0%Z ]} Toy.world in
  let run := train w in
  run.1 = Raise (OSError "../models") /\
  disk run.2 = disk w /\
  List.filter is_save_event (trace run.2) = [].
Proof. repeat split; vm_compute; reflexivity. Qed.

(** With a directory in the place of the file the run raises in the save,
    its last call, after the directory was created; no state dict is
    written. *)
Example toy_train_fails_in_the_save :
  let w := set_disk {[ "../models/UNet.pth" := Dir ]} Toy.world in
  let run := train w in
  run.1 = Raise (OSError "../models/UNet.pth") /\
  map_to_list (disk run.2) = [("../models/UNet.pth", Dir); ("../models", Dir)] /\
  last (trace run.2) = Some (EvSave "../models/UNet.pth") /\
  length (List.filter is_save_event (trace run.2)) = 1.
Proof. repeat split; vm_compute; reflexivity. Qed.

(** On a full device the write breaks off: the run raises in the save and
    leaves a truncated file. *)
Example toy_train_write_breaks_off :
  let run := @train Toy.toy Toy.providers_disk_full Toy.world in
  run.1 = Raise (OSError "No space left on device") /\
  map_to_list (disk run.2) = [("../models/UNet.pth", Truncated); ("../models", Dir)] /\
  last (trace run.2) = Some (EvSave "../models/UNet.pth").
Proof. repeat split; vm_compute; reflexivity. Qed.

(** Training moves the parameters, evaluation does not. *)
Example toy_train_step_moves_parameters :
  parameters (model Toy.world) = 1%float /\
  parameters (model (train_step Toy.criterion "cpu" Toy.batches Toy.world).2) = 4%float /\
  parameters (model (eval_step Toy.criterion "cpu" Toy.batches "Validating" Toy.world).2) = 1%float.
Proof. repeat split; vm_compute; reflexivity. Qed.

(** Two evaluation passes in a row on the instance. *)
Example toy_eval_step_twice :
  let first := eval_step Toy.criterion "cpu" Toy.batches "Validating" Toy.world in
  let second := eval_step Toy.criterion "cpu" Toy.batches "Validating" first.2 in
  first.1 = Ok Toy.eval_history /\ second.1 = Ok Toy.eval_history.
Proof. split; vm_compute; reflexivity. Qed.

(** An evaluation pass that raises on the device transfer. *)
Example toy_eval_step_raises :
  let run := eval_step Toy.criterion "cuda" Toy.batches "Validating" Toy.world in
  run.1 = Raise (RuntimeError "no such device") /\
  parameters (model run.2) = parameters (model Toy.world).
Proof. split; vm_compute; reflexivity. Qed.

(** * Error behaviour, composition and the orchestrator on the instance *)


Lemma every_display_is_running_average_witness :
  let run := runner_step TrainRunner Toy.criterion "cpu" Toy.batches Toy.world in
  let h := Toy.train_history in
  run = (Ok h, run.2) /\
  exists shown,
    length shown = length Toy.batches /\
    trace run.2 =
      trace Toy.world ++ runner_enter_events TrainRunner (length Toy.batches)
        ++ pass_events (runner_body_events TrainRunner (has_scheduler Toy.world)) shown /\
    forall k sd, shown !! k = Some sd ->
      sd.1 = format_f 4 (sequential_sum (take (S k) (loss h)) / float_of_nat (S k))%float /\
      sd.2 = format_f 4 (sequential_sum (take (S k) (dice h)) / float_of_nat (S k))%float.
Proof.
  intros run h.
  assert (run = (Ok h, run.2)) as Hrun by (vm_compute; reflexivity).
  split; [exact Hrun|].
  exact (every_display_is_running_average TrainRunner _ _ _ _ _ _ Hrun).
Defined.

Lemma eval_step_of_concatenation_witness :
  let h2 := {| loss := [0.1]%float; dice := [0.25]%float; hausdorff := [1]%float |} in
  let first := eval_step Toy.criterion "cpu" Toy.batches "Validating" Toy.world in
  let second := eval_step Toy.criterion "cpu" [(2, 1)%float] "Testing" first.2 in
  first.1 = Ok Toy.eval_history /\
  second.1 = Ok h2 /\
  (eval_step Toy.criterion "cpu" (Toy.batches ++ [(2, 1)%float]) "Both" Toy.world).1
    = Ok (history_app Toy.eval_history h2).
Proof.
  intros h2 first second.
  assert (first.1 = Ok Toy.eval_history) as Hfirst by (vm_compute; reflexivity).
  assert (second.1 = Ok h2) as Hsecond by (vm_compute; reflexivity).
  split; [exact Hfirst|]. split; [exact Hsecond|].
  exact (eval_step_of_concatenation Toy.criterion "cpu" Toy.batches [(2, 1)%float]
           "Validating" "Testing" "Both" Toy.world _ _ Hfirst Hsecond).
Defined.

Lemma train_step_missing_combined_witness :
  let run := train_step Toy.criterion_no_combined "cpu" [(1, 0)%float] Toy.world in
  tensor_to (1%float : Tensor) "cpu" = Ok 1%float /\
  tensor_to (0%float : Tensor) "cpu" = Ok 0%float /\
  forward_train ctx_train (parameters (model Toy.world)) (buffers (model Toy.world)) 1%float
    = Ok (1%float, 1%Z) /\
  Toy.criterion_no_combined ctx_train 1%float 0%float = Ok ∅ /\
  run.1 = Raise (KeyError "combined") /\
  trace run.2 =
    trace Toy.world ++ [EvTqdm "Training" 1; EvModelTrain; EvTo; EvTo;
                        EvForward ctx_train; EvCriterion ctx_train; EvZeroGrad true] /\
  parameters (model run.2) = parameters (model Toy.world) /\
  grad (model run.2) = None /\
  optimizer run.2 = optimizer Toy.world /\
  scaler run.2 = scaler Toy.world /\
  scheduler run.2 = scheduler Toy.world.
Proof.
  intros run.
  assert (tensor_to (1%float : Tensor) "cpu" = Ok 1%float) as Himgs by reflexivity.
  assert (tensor_to (0%float : Tensor) "cpu" = Ok 0%float) as Hmasks by reflexivity.
  assert (forward_train ctx_train (parameters (model Toy.world))
            (buffers (model Toy.world)) 1%float = Ok (1%float, 1%Z)) as Hfwd by reflexivity.
  assert (Toy.criterion_no_combined ctx_train 1%float 0%float = Ok ∅) as Hloss by reflexivity.
  assert ((∅ : gmap string LossT) !! "combined" = None) as Hkey by (vm_compute; reflexivity).
  split; [exact Himgs|]. split; [exact Hmasks|]. split; [exact Hfwd|]. split; [exact Hloss|].
  exact (train_step_missing_combined Toy.criterion_no_combined "cpu" (1, 0)%float [] Toy.world
           1%float 0%float 1%float 1%Z ∅ Himgs Hmasks Hfwd Hloss Hkey).
Defined.

Lemma train_exhausts_the_schedule_witness :
  (forall ds epoch,
     length (loader_batches (mk_loader ds true) epoch) = loader_len (mk_loader ds true)) /\
  train Toy.world = (Ok tt, (train Toy.world).2) /\
  exists train_set pb sched opt,
    ImageDataset "../data/train" get_train_transforms = Ok train_set /\
    OneCycleLR (AdamW pb LEARNING_RATE) LEARNING_RATE
      (loader_len (mk_loader train_set true)) N_EPOCHS = Ok (sched, opt) /\
    step_count (train Toy.world).2 =
      Some (last_epoch sched + loader_len (mk_loader train_set true) * N_EPOCHS).
Proof.
  assert (forall ds epoch,
            length (loader_batches (mk_loader ds true) epoch)
            = loader_len (mk_loader ds true)) as Hlen by reflexivity.
  assert (train Toy.world = (Ok tt, (train Toy.world).2)) as Hrun
    by (vm_compute; reflexivity).
  split; [exact Hlen|]. split; [exact Hrun|].
  exact (train_exhausts_the_schedule Toy.world (train Toy.world).2 Hlen Hrun).
Defined.

Lemma train_pass_sequence_witness :
  train Toy.world = (Ok tt, (train Toy.world).2) /\
  exists train_set val_set test_set evs,
    ImageDataset "../data/train" get_train_transforms = Ok train_set /\
    ImageDataset "../data/val" get_val_transforms = Ok val_set /\
    ImageDataset "../data/test" get_val_transforms = Ok test_set /\
    trace (train Toy.world).2 = trace Toy.world ++ evs /\
    List.filter is_pass_start evs =
      epoch_passes (mk_loader train_set true) (mk_loader val_set false) (seq 0 N_EPOCHS)
      ++ [EvTqdm "Testing" (length (loader_batches (mk_loader test_set false) 0))].
Proof.
  assert (train Toy.world = (Ok tt, (train Toy.world).2)) as Hrun
    by (vm_compute; reflexivity).
  split; [exact Hrun|].
  exact (train_pass_sequence Toy.world (train Toy.world).2 Hrun).
Defined.

Lemma saved_weights_are_the_tested_weights_witness :
  let test_loader := mk_loader [(2, 0)%float] false in
  let w' := (test_and_save Toy.criterion test_loader Toy.world).2 in
  test_and_save Toy.criterion test_loader Toy.world = (Ok tt, w') /\
  disk w' !! "../models/UNet.pth"
    = Some (File (parameters (model Toy.world)) (buffers (model Toy.world))) /\
  parameters (model w') = parameters (model Toy.world) /\
  buffers (model w') = buffers (model Toy.world).
Proof.
  intros test_loader w'.
  assert (test_and_save Toy.criterion test_loader Toy.world = (Ok tt, w')) as Hrun
    by (vm_compute; reflexivity).
  split; [exact Hrun|].
  exact (saved_weights_are_the_tested_weights Toy.criterion test_loader Toy.world w' Hrun).
Defined.

Lemma eval_batch_order_permutes_history_witness :
  let bs := [(1, 0); (3, 1)]%float in
  let bs' := [(3, 1); (1, 0)]%float in
  let h := {| loss := [0.1; 0.2]%float; dice := [0; 0.25]%float;
              hausdorff := [1; 2]%float |} in
  bs ≡ₚ bs' /\
  (eval_step Toy.criterion "cpu" bs "Validating" Toy.world).1 = Ok h /\
  exists vals vals',
    vals ≡ₚ vals' /\
    h = history_of_values vals /\
    (eval_step Toy.criterion "cpu" bs' "Validating" Toy.world).1
      = Ok (history_of_values vals') /\
    loss h ≡ₚ loss (history_of_values vals') /\
    dice h ≡ₚ dice (history_of_values vals') /\
    hausdorff h ≡ₚ hausdorff (history_of_values vals').
Proof.
  intros bs bs' h.
  assert (bs ≡ₚ bs') as Hperm by apply perm_swap.
  assert ((eval_step Toy.criterion "cpu" bs "Validating" Toy.world).1 = Ok h) as Hrun
    by (vm_compute; reflexivity).
  split; [exact Hperm|]. split; [exact Hrun|].
  exact (eval_batch_order_permutes_history Toy.criterion "cpu" bs bs' "Validating"
           Toy.world h Hperm Hrun).
Defined.

Lemma train_step_of_concatenation_witness :
  let h2 := {| loss := [0.7]%float; dice := [0.25]%float; hausdorff := [7]%float |} in
  let first := train_step Toy.criterion "cpu" Toy.batches Toy.world in
  let second := train_step Toy.criterion "cpu" [(2, 1)%float] first.2 in
  let whole := train_step Toy.criterion "cpu" (Toy.batches ++ [(2, 1)%float]) Toy.world in
  first.1 = Ok Toy.train_history /\
  second.1 = Ok h2 /\
  whole.1 = Ok (history_app Toy.train_history h2) /\
  objects whole.2 = objects second.2.
Proof.
  intros h2 first second whole.
  assert (first.1 = Ok Toy.train_history) as Hfirst by (vm_compute; reflexivity).
  assert (second.1 = Ok h2) as Hsecond by (vm_compute; reflexivity).
  split; [exact Hfirst|]. split; [exact Hsecond|].
  exact (train_step_of_concatenation Toy.criterion "cpu" Toy.batches [(2, 1)%float] Toy.world
           _ _ Hfirst Hsecond).
Defined.
